(** * mail_deduplicate: the configuration contract of [mail_deduplicate/__init__.py]

    A shallow embedding of the [Config] class (its defaults, its constructor
    and its attribute protocol) together with the package constants, and
    the properties of the specification that concern them.

    Conventions of the embedding.
    - A Python [str] value is the list of its code points ([ord] of each
      character), because the constructor inspects them.  Names used only
      as dictionary keys or attribute identifiers are plain [string]s, which
      are compared for equality and nothing else.
    - [assert] raises [AssertionError]: the interpreter is assumed to run
      without [-O], as the command-line entry point does.
    - Library and operating-system behaviour the constructor relies on
      ([str.lower], [Path.resolve], [Path.exists]) is taken as a parameter
      of the development. *)

From stdpp Require Import base gmap strings list.
From Stdlib Require Import ZArith Lia.

(** ** Python values *)

Abbreviation pystr := (list Z).

(** The code points of an ASCII literal. *)
Definition str_of (s : string) : pystr :=
  (λ a, Z.of_nat (Ascii.nat_of_ascii a)) <$> String.list_ascii_of_string s.

(** The values an option can be bound to: [None], booleans, integers,
    strings, tuples, lists and paths.  Other Python values ([bytes],
    floats, dictionaries, ...) are outside this universe; what is proved
    of "every value" is proved of these. *)
#[warnings="-register-all"]
Inductive pyval :=
  | VNone
  | VBool (b : bool)
  | VInt (z : Z)
  | VStr (s : pystr)
  | VTuple (items : list pyval)
  | VList (items : list pyval)
  | VPath (p : pystr).

(** Exceptions the constructor can raise.  Those that several statements
    can raise carry the source line of the statement.  [OSError] stands
    for whatever a failing call to the operating system raises. *)
Inductive pyexc :=
  | ValueError_unrecognized (opts : gset string)   (* line 144 *)
  | ValueError_empty_max                            (* max() of an empty set, line 161 *)
  | AssertionError (line : nat)
  | TypeError (line : nat)
  | AttributeError (line : nat)
  | OSError (line : nat)
  | FileExistsError (p : pystr).                    (* line 170 *)

Definition exc_line (e : pyexc) : nat :=
  match e with
  | ValueError_unrecognized _ => 144
  | ValueError_empty_max => 161
  | AssertionError l | TypeError l | AttributeError l | OSError l => l
  | FileExistsError _ => 170
  end.

Inductive result (A : Type) :=
  | Ok (a : A)
  | Raise (e : pyexc).
Arguments Ok {A} a.
Arguments Raise {A} e.

#[global] Instance result_ret : MRet result := λ A, @Ok A.
#[global] Instance result_bind : MBind result := λ A B f m,
  match m with
  | Ok a => f a
  | Raise e => Raise e
  end.

(** [assert cond] at a given line. *)
Definition assert_ (line : nat) (cond : bool) : result unit :=
  if cond then Ok () else Raise (AssertionError line).

(** [bool(v)]. *)
Definition truthy (v : pyval) : bool :=
  match v with
  | VNone => false
  | VBool b => b
  | VInt z => bool_decide (z ≠ 0%Z)
  | VStr s => bool_decide (s ≠ [])
  | VTuple l | VList l => bool_decide (l ≠ [])
  | VPath _ => true
  end.

(** [v >= -1]: defined on integers and booleans, a TypeError elsewhere. *)
Definition ge_minus_one (line : nat) (v : pyval) : result bool :=
  match v with
  | VInt z => Ok (bool_decide (-1 ≤ z)%Z)
  | VBool b => Ok true
  | _ => Raise (TypeError line)
  end.

(** [iter(v)], run to the end. *)
Definition iterate (line : nat) (v : pyval) : result (list pyval) :=
  match v with
  | VTuple l | VList l => Ok l
  | VStr s => Ok ((λ c, VStr [c]) <$> s)
  | _ => Raise (TypeError line)
  end.

(** [v is True]. *)
Definition is_True (v : pyval) : bool :=
  match v with
  | VBool true => true
  | _ => false
  end.

(** ** Package constants *)

Definition CLI_NAME : string := "mdedup".

Definition HASH_HEADERS : list pystr :=
  str_of <$> [ "Date"; "From"; "To"; "Subject"; "MIME-Version";
               "Content-Type"; "Content-Disposition"; "User-Agent";
               "X-Priority"; "Message-ID" ]%string.

Definition MINIMAL_HEADERS_COUNT : Z := 4.
Definition DEFAULT_SIZE_THRESHOLD : Z := 512.
Definition DEFAULT_CONTENT_THRESHOLD : Z := 768.

(** ** boltons.iterutils.unique

    [unique(src)] is [list(unique_iter(src))]; the generator keeps a set
    of the elements already yielded and yields an element exactly when it
    is not in that set. *)
Fixpoint unique_iter (seen : gset pystr) (src : list pystr) : list pystr :=
  match src with
  | [] => []
  | i :: src' =>
      if decide (i ∈ seen) then unique_iter seen src'
      else i :: unique_iter ({[ i ]} ∪ seen) src'
  end.

Definition unique (src : list pystr) : list pystr := unique_iter ∅ src.

(** The reading of the specification: every name is kept at its first
    occurrence and dropped at the later ones. *)
Fixpoint keep_first_occurrences (l : list pystr) : list pystr :=
  match l with
  | [] => []
  | x :: l' => x :: filter (λ y, y ≠ x) (keep_first_occurrences l')
  end.

(** ** class Config *)

(** An instance: the [conf] dictionary and the other entries of the
    instance dictionary (those [__init__] sets with [self.name = ...]). *)
Record Config := {
  conf : gmap string pyval;
  attrs : gmap string pyval
}.

Definition default_conf : gmap string pyval :=
  list_to_map
    [ ("dry_run", VBool false);
      ("input_format", VBool false);
      ("force_unlock", VBool false);
      ("hash_only", VBool false);
      ("hash_headers", VTuple (VStr <$> HASH_HEADERS));
      ("hash_body", VNone);
      ("size_threshold", VInt DEFAULT_SIZE_THRESHOLD);
      ("content_threshold", VInt DEFAULT_CONTENT_THRESHOLD);
      ("show_diff", VBool false);
      ("strategy", VNone);
      ("time_source", VNone);
      ("regexp", VNone);
      ("action", VNone);
      ("export", VNone);
      ("export_format", VStr (str_of "mbox"));
      ("export_append", VBool false) ]%string.
Arguments default_conf : simpl never.

(** [Config.__getattr__]: the fallback Python calls when the ordinary
    lookup finds nothing.  A function body that ends without [return]
    yields [None]. *)
Definition __getattr__ (self : Config) (attr_id : string) : pyval :=
  match conf self !! attr_id with
  | Some v => v
  | None => VNone
  end.

(** [self.name = v]. *)
Definition setattr (self : Config) (name : string) (v : pyval) : Config :=
  {| conf := conf self; attrs := <[name := v]> (attrs self) |}.

(** Names found on the class [Config] or on [object]; an instance reaches
    them without [__getattr__]. *)
Definition class_attrs : list string :=
  [ "default_conf"; "__init__"; "__getattr__"; "__doc__"; "__module__";
    "__dict__"; "__weakref__"; "__class__"; "__new__"; "__repr__";
    "__str__"; "__hash__"; "__eq__"; "__ne__"; "__lt__"; "__le__";
    "__gt__"; "__ge__"; "__getattribute__"; "__setattr__"; "__delattr__";
    "__dir__"; "__format__"; "__reduce__"; "__reduce_ex__";
    "__getstate__"; "__sizeof__"; "__init_subclass__";
    "__subclasshook__" ]%string.

(** What [self.name] evaluates to. *)
Inductive attr_value :=
  | Val (v : pyval)
  | ConfDict (d : gmap string pyval)
  | ClassAttr (name : string).

(** [self.name]: the instance dictionary, then the class, then
    [__getattr__]. *)
Definition getattr (self : Config) (name : string) : attr_value :=
  if decide (name = "conf"%string) then ConfDict (conf self)
  else match attrs self !! name with
       | Some v => Val v
       | None =>
           if decide (name ∈ class_attrs) then ClassAttr name
           else Val (__getattr__ self name)
       end.

Section Config_init.

(** [str.lower]. *)
Variable lower : pystr → pystr.
(** [Path(p).resolve()] as the text of the resolved path; [None] when
    the operating system refuses. *)
Variable resolve : pystr → option pystr.
(** [Path.exists] of a resolved path. *)
Variable exists_ : pystr → option bool.

(** Lines 140-147.  During [__init__] the instance dictionary holds no
    option name, so each [self.option] below is served by
    [__getattr__] (see [getattr_option_fallback]). *)
Definition load_conf (kwargs : gmap string pyval) : result Config :=
  let self := {| conf := default_conf; attrs := ∅ |} in
  let unrecognized_options := dom kwargs ∖ dom default_conf in
  if decide (unrecognized_options ≠ ∅)
  then Raise (ValueError_unrecognized unrecognized_options)
  else Ok {| conf := kwargs ∪ conf self; attrs := attrs self |}.

(** Lines 150-151. *)
Definition check_thresholds (self : Config) : result unit :=
  b ← ge_minus_one 150 (__getattr__ self "size_threshold");
  assert_ 150 b ;;
  b ← ge_minus_one 151 (__getattr__ self "content_threshold");
  assert_ 151 b.

(** [h.lower()]. *)
Definition call_lower (h : pyval) : result pystr :=
  match h with
  | VStr s => Ok (lower s)
  | VNone | VBool _ | VInt _ | VTuple _ | VList _ | VPath _ =>
      (* none of these types has a [lower] method *)
      Raise (AttributeError 154)
  end.

Fixpoint comprehension (hs : list pyval) : result (list pystr) :=
  match hs with
  | [] => Ok []
  | h :: hs' =>
      x ← call_lower h;
      xs ← comprehension hs';
      Ok (x :: xs)
  end.

(** Lines 154-156. *)
Definition normalize_headers (self : Config) : result (list pystr) :=
  hs ← iterate 154 (__getattr__ self "hash_headers");
  normalized_headers ← comprehension hs;
  Ok (unique normalized_headers).

(** [max] and [min] of a set of integers. *)
Definition max_ (s : gset Z) : result Z :=
  match elements s with
  | [] => Raise ValueError_empty_max
  | x :: l => Ok (foldr Z.max x l)
  end.

Definition min_ (s : gset Z) : result Z :=
  match elements s with
  | [] => Raise ValueError_empty_max
  | x :: l => Ok (foldr Z.min x l)
  end.

(** Lines 159-162. *)
Fixpoint check_header_chars (normalized_headers : list pystr) : result unit :=
  match normalized_headers with
  | [] => Ok ()
  | hid :: rest =>
      let ascii_indexes : gset Z := list_to_set hid in
      mx ← max_ ascii_indexes;
      assert_ 161 (bool_decide (mx ≤ 126)%Z) ;;
      mn ← min_ ascii_indexes;
      assert_ 162 (bool_decide (33 ≤ mn)%Z) ;;
      check_header_chars rest
  end.

(** [Path(v)]: a [str] or a path, a TypeError otherwise; then
    [.resolve()]. *)
Definition Path_resolve (v : pyval) : result pystr :=
  match v with
  | VStr s | VPath s =>
      match resolve s with
      | Some p => Ok p
      | None => Raise (OSError 168)
      end
  | _ => Raise (TypeError 168)
  end.

Definition Path_exists (p : pystr) : result bool :=
  match exists_ p with
  | Some b => Ok b
  | None => Raise (OSError 169)
  end.

(** Lines 167-170. *)
Definition check_export (self : Config) : result Config :=
  if truthy (__getattr__ self "export") then
    p ← Path_resolve (__getattr__ self "export");
    let self := setattr self "export" (VPath p) in
    e ← Path_exists p;
    if e && negb (is_True (__getattr__ self "export_append"))
    then Raise (FileExistsError p)
    else Ok self
  else Ok self.

(** Lines 140-163: everything before the export check. *)
Definition validate (kwargs : gmap string pyval) : result Config :=
  self ← load_conf kwargs;
  check_thresholds self ;;
  normalized_headers ← normalize_headers self;
  check_header_chars normalized_headers ;;
  Ok (setattr self "hash_headers" (VTuple (VStr <$> normalized_headers))).

(** Line 137: binding the call to [__init__(self, **kwargs)].  The new
    instance is bound to [self]; a keyword argument of that name is a
    second value for the same parameter, and Python raises a TypeError
    before the body runs.  Every other name goes to [kwargs]. *)
Definition bind_call (kwargs : gmap string pyval) : result unit :=
  if decide ("self"%string ∈ dom kwargs) then Raise (TypeError 137)
  else Ok ().

(** [Config.__init__], seen as the function from the keyword arguments
    to the constructed instance or the exception raised. *)
Definition __init__ (kwargs : gmap string pyval) : result Config :=
  bind_call kwargs ;;
  self ← validate kwargs;
  check_export self.

End Config_init.

(** ** The engine: fingerprinting and fuzzy validation

    The package sources at hand declare the engine's constants and
    conditions ([MINIMAL_HEADERS_COUNT], the thresholds, [TooFewHeaders],
    [SizeDiffAboveThreshold], [ContentDiffAboveThreshold]) but not the
    functions that use them. *)

(** A message as the engine sees it: the ordered header fields and the
    payload bytes. *)
Record Message := {
  headers : list (pystr * pystr);
  payload : list Z
}.

Inductive fingerprint_result :=
  | Fingerprint (digest : list Z)
  | TooFewHeaders (found : nat).

Inductive validation :=
  | Accepted
  | SizeDiffAboveThreshold (delta : Z)
  | ContentDiffAboveThreshold (delta : Z).

Section Engine.

Variable lower : pystr → pystr.
(** The digest of the canonical header sequence. *)
Variable digest : list (pystr * pystr) → list Z.
(** The size of a unified diff between two payloads. *)
Variable diff_size : list Z → list Z → Z.

(** Modelled from the spec: the case-insensitive lookup of the Header
    Canonicalizer (section 4.2), absent from the sources: all the values
    the message holds for a configured header name, in message order. *)
Definition get_all (m : Message) (name : pystr) : list pystr :=
  snd <$> filter (λ hv, lower hv.1 = name) (headers m).

(** Modelled from the spec: the canonical sequence of the Header
    Canonicalizer (section 4.2), absent from the sources: the (name,
    value) pairs in the configured order, every occurrence included,
    absent headers omitted. *)
Definition canonical_headers (hash_headers : list pystr) (m : Message)
  : list (pystr * pystr) :=
  hash_headers ≫= (λ name, pair name <$> get_all m name).

(** Modelled from the spec: the count of configured headers actually
    found in the message (section 4.2), absent from the sources. *)
Definition found_headers (hash_headers : list pystr) (m : Message) : list pystr :=
  filter (λ name, get_all m name ≠ []) hash_headers.

Definition found_count (hash_headers : list pystr) (m : Message) : nat :=
  length (found_headers hash_headers m).

(** Modelled from the spec: the Fingerprint Engine (section 4.3), absent
    from the sources: the digest of the canonical sequence, refused with
    [TooFewHeaders] when the found-header count is below the minimum. *)
Definition fingerprint (hash_headers : list pystr) (minimum : Z) (m : Message)
  : fingerprint_result :=
  if decide (Z.of_nat (found_count hash_headers m) < minimum)%Z
  then TooFewHeaders (found_count hash_headers m)
  else Fingerprint (digest (canonical_headers hash_headers m)).

(** Modelled from the spec: the two measures of the Fuzzy Validator
    (section 4.5), absent from the sources. *)
Definition size_delta (a b : Message) : Z :=
  Z.abs (Z.of_nat (length (payload a)) - Z.of_nat (length (payload b))).

Definition content_delta (a b : Message) : Z :=
  diff_size (payload a) (payload b).

(** Modelled from the spec: a measure "does not exceed" a threshold, and
    a threshold of -1 always passes (section 4.5), absent from the
    sources. *)
Definition within (threshold measured : Z) : bool :=
  bool_decide (threshold = -1)%Z || bool_decide (measured ≤ threshold)%Z.

(** Modelled from the spec: the pairwise check of the Fuzzy Validator
    (section 4.5), absent from the sources: the size criterion (a), then
    the content criterion (b); a failure is reported and splits the
    pair. *)
Definition validate_pair (size_threshold content_threshold : Z) (a b : Message)
  : validation :=
  if negb (within size_threshold (size_delta a b))
  then SizeDiffAboveThreshold (size_delta a b)
  else if negb (within content_threshold (content_delta a b))
  then ContentDiffAboveThreshold (content_delta a b)
  else Accepted.

End Engine.


(** ** Vocabulary of the statements *)

(** The keys of [default_conf], in the order of the source. *)
Definition option_names : list string :=
  [ "dry_run"; "input_format"; "force_unlock"; "hash_only"; "hash_headers";
    "hash_body"; "size_threshold"; "content_threshold"; "show_diff";
    "strategy"; "time_source"; "regexp"; "action"; "export";
    "export_format"; "export_append" ]%string.


(** A header name as RFC 5322 has it: characters 33 to 126. *)
Definition printable (hid : pystr) : Prop :=
  Forall (λ c, (33 ≤ c ≤ 126)%Z) hid.


(** The value of [hash_headers] is a list or a tuple of these names. *)
Definition header_list (v : pyval) (names : list pystr) : Prop :=
  v = VList (VStr <$> names) ∨ v = VTuple (VStr <$> names).

(** The values of the universe that have no [lower] method: all but the
    strings. *)
Definition has_no_lower (v : pyval) : bool :=
  match v with
  | VStr _ => false
  | VNone | VBool _ | VInt _ | VTuple _ | VList _ | VPath _ => true
  end.

(** [str.lower] on ASCII text: the letters A-Z move to a-z and nothing
    else changes.  Python's [str.lower] does this and more (it also maps
    the cased letters beyond ASCII); on ASCII text the two agree. *)
Definition ascii_lower (s : pystr) : pystr :=
  (λ c, if bool_decide (65 ≤ c ≤ 90)%Z then (c + 32)%Z else c) <$> s.

Definition is_ascii (s : pystr) : Prop := Forall (λ c, (0 ≤ c < 128)%Z) s.

Definition lower_agrees_on_ascii (lower : pystr → pystr) : Prop :=
  ∀ s, is_ascii s → lower s = ascii_lower s.

(** A file system for the examples: paths resolve to themselves and the
    only existing file is [/old.mbox]. *)
Definition resolve_id (p : pystr) : option pystr := Some p.

Definition exists_old_mbox (p : pystr) : option bool :=
  Some (bool_decide (p = str_of "/old.mbox")).

(** The default header names as a constructed instance holds them. *)
Definition default_hash_headers : list pystr :=
  str_of <$> [ "date"; "from"; "to"; "subject"; "mime-version";
               "content-type"; "content-disposition"; "user-agent";
               "x-priority"; "message-id" ]%string.

(** ** Inputs and instances of the examples *)

Definition kwargs_self : gmap string pyval :=
  {[ "self"%string := VInt 1 ]}.

Definition kwargs_bogus : gmap string pyval :=
  {[ "bogus"%string := VInt 1 ]}.

Definition kwargs_dry_run : gmap string pyval :=
  {[ "dry_run"%string := VBool true ]}.

Definition kwargs_small_threshold : gmap string pyval :=
  {[ "size_threshold"%string := VInt (-2) ]}.

Definition kwargs_no_threshold : gmap string pyval :=
  <[ "size_threshold"%string := VInt (-1) ]>
    {[ "content_threshold"%string := VInt (-1) ]}.

Definition mixed_case_names : list pystr :=
  str_of <$> [ "To"; "tO"; "Subject"; "to" ]%string.

Definition kwargs_mixed_case : gmap string pyval :=
  {[ "hash_headers"%string := VList (VStr <$> mixed_case_names) ]}.

Definition kwargs_space : gmap string pyval :=
  {[ "hash_headers"%string := VList (VStr <$> [str_of "Reply To"]) ]}.

Definition kwargs_empty_name : gmap string pyval :=
  {[ "hash_headers"%string := VList (VStr <$> [str_of "To"; []]) ]}.

Definition kwargs_only_empty_name : gmap string pyval :=
  {[ "hash_headers"%string := VList (VStr <$> [[]]) ]}.

Definition kwargs_export_old : gmap string pyval :=
  {[ "export"%string := VStr (str_of "/old.mbox") ]}.

Definition kwargs_export_new : gmap string pyval :=
  {[ "export"%string := VStr (str_of "/new.mbox") ]}.

Definition kwargs_export_append : gmap string pyval :=
  <[ "export_append"%string := VBool true ]> kwargs_export_old.

(** The instance each of them leaves before the export check. *)
Definition validated (kwargs : gmap string pyval) (hash_headers : list pystr)
  : Config :=
  {| conf := kwargs ∪ default_conf;
     attrs := {[ "hash_headers"%string := VTuple (VStr <$> hash_headers) ]} |}.

(** A stand-in digest and a stand-in diff size for the examples: the
    concatenation of the "name: value" lines, and the number of bytes of
    both payloads that the other does not have. *)
Definition example_digest (hs : list (pystr * pystr)) : list Z :=
  hs ≫= (λ hv, hv.1 ++ [58; 32]%Z ++ hv.2 ++ [10]%Z).

Definition example_diff_size (p q : list Z) : Z :=
  Z.of_nat (length (filter (λ c, c ∉ q) p) + length (filter (λ c, c ∉ p) q)).

Definition message_three_headers : Message :=
  {| headers := [ (str_of "Date", str_of "Mon, 1 Jan 2018 10:00:00 +0000");
                  (str_of "From", str_of "a@example.org");
                  (str_of "To", str_of "b@example.org");
                  (str_of "Received", str_of "by mx") ];
     payload := str_of "hello" |}.

Definition message_four_headers : Message :=
  {| headers := (str_of "SUBJECT", str_of "greetings")
                :: headers message_three_headers;
     payload := str_of "hello, world" |}.

Definition kwargs_string_header : gmap string pyval :=
  {[ "hash_headers"%string := VStr (str_of "To") ]}.

Definition kwargs_none_threshold : gmap string pyval :=
  {[ "size_threshold"%string := VNone ]}.

Definition kwargs_export_true : gmap string pyval :=
  {[ "export"%string := VBool true ]}.

Definition kwargs_int_header : gmap string pyval :=
  {[ "hash_headers"%string := VList [VStr (str_of "To"); VInt 7] ]}.

(** A file system on which every call fails. *)
Definition resolve_fails (p : pystr) : option pystr := None.
Definition exists_fails (p : pystr) : option bool := None.

(** ** setup.py: the version of the package

    [get_version] reads [__init__.py] and searches it, with [re.M], for
    the pattern: start of line, [__version__], any whitespace, [=], any
    whitespace, a quote (single or double), a group of characters that
    are no quotes, a quote.  The text is a [str]; the
    character class [\s] and the file are those of the interpreter and of
    the installation, and are parameters.  No part of the pattern can
    match in two ways at one position (a whitespace is neither [=] nor a
    quote, the group stops at the first quote), so the matcher below
    walks the text once where the regex engine would backtrack in
    vain. *)

Definition MODULE_NAME : pystr := str_of "maildir_deduplicate".

Definition VERSION_KEYWORD : pystr := str_of "__version__".

(** The single quote (39) and the double quote (34). *)
Definition is_quote (c : Z) : bool := bool_decide (c = 39 ∨ c = 34)%Z.

(** The text after a literal, if it starts with the literal. *)
Fixpoint skip_literal (literal s : pystr) : option pystr :=
  match literal, s with
  | [], _ => Some s
  | a :: literal', c :: s' =>
      if bool_decide (a = c) then skip_literal literal' s' else None
  | _ :: _, [] => None
  end.

(** The longest run of characters of a class, and what follows it. *)
Fixpoint take_while (P : Z → bool) (s : pystr) : pystr :=
  match s with
  | c :: s' => if P c then c :: take_while P s' else []
  | [] => []
  end.

Fixpoint skip_while (P : Z → bool) (s : pystr) : pystr :=
  match s with
  | c :: s' => if P c then skip_while P s' else s
  | [] => []
  end.

Inductive version_result :=
  | Version (v : pystr)
  | RuntimeError_no_version
  | IOError.

Section Setup.

(** The class [\s]. *)
Variable is_space : Z → bool.
(** [read_file]: the content of the file, [None] when it cannot be
    opened or decoded. *)
Variable read_file : list pystr → option pystr.

(** The pattern after [^], matched at the head of [s]: group 1. *)
Definition match_version (s : pystr) : option pystr :=
  s1 ← skip_literal VERSION_KEYWORD s;
  s2 ← skip_literal [61%Z] (skip_while is_space s1);
  match skip_while is_space s2 with
  | q :: s3 =>
      if is_quote q then
        match skip_while (λ c, negb (is_quote c)) s3 with
        | _ :: _ => Some (take_while (λ c, negb (is_quote c)) s3)
        | [] => None
        end
      else None
  | [] => None
  end.

(** [re.search(..., re.M)]: the first position, from the left, that is
    the start of the text or follows a newline and where the pattern
    matches.  [line_start] tells whether the head of [s] is such a
    position. *)
Fixpoint search (line_start : bool) (s : pystr) : option pystr :=
  match (if line_start then match_version s else None) with
  | Some v => Some v
  | None =>
      match s with
      | [] => None
      | c :: s' => search (bool_decide (c = 10%Z)) s'
      end
  end.

(** Lines 70-78. *)
Definition get_version : version_result :=
  match read_file [MODULE_NAME; str_of "__init__.py"] with
  | None => IOError
  | Some init_file =>
      match search true init_file with
      | Some v => Version v
      | None => RuntimeError_no_version
      end
  end.

End Setup.

(** What the pattern says: a line that starts with the keyword, then
    whitespace, [=], whitespace, a quote, the version without any quote,
    a quote. *)
Definition version_line (is_space : Z → bool) (s v : pystr) : Prop :=
  ∃ ws1 ws2 q q' rest,
    s = VERSION_KEYWORD ++ ws1 ++ [61%Z] ++ ws2 ++ [q] ++ v ++ [q'] ++ rest
    ∧ Forall (λ c, is_space c = true) ws1
    ∧ Forall (λ c, is_space c = true) ws2
    ∧ is_quote q = true ∧ is_quote q' = true
    ∧ Forall (λ c, is_quote c = false) v.

(** The end of [pre] is the start of a line ([first] tells whether the
    start of the text counts as one). *)
Definition line_start_after (first : bool) (pre : pystr) : Prop :=
  pre = [] ∧ first = true ∨ last pre = Some 10%Z.

Definition at_line_start (pre : pystr) : Prop := line_start_after true pre.

(** The whitespace of ASCII: space, tab, newline, vertical tab, form
    feed, carriage return. *)
Definition ascii_space (c : Z) : bool :=
  bool_decide (c = 32 ∨ 9 ≤ c ≤ 13)%Z.

(** The head of this package's [__init__.py], up to the version. *)
Definition example_init_file : pystr :=
  str_of "CLI_NAME = " ++ [34]%Z ++ str_of "mdedup" ++ [34; 10; 10]%Z
  ++ str_of "__version__ = " ++ [34]%Z ++ str_of "6.2.1" ++ [34; 10; 10]%Z
  ++ str_of "env_data = get_profile(scrub=True)" ++ [10]%Z.
(** * Properties *)

(** ** The error monad *)

Lemma bind_unit_l {A B} (a : A) (f : A → result B) : Ok a ≫= f = f a.
Proof. done. Qed.

Lemma bind_raise_l {A B} (e : pyexc) (f : A → result B) :
  Raise e ≫= f = Raise e.
Proof. done. Qed.

Lemma bind_Ok {A B} (m : result A) (f : A → result B) (b : B) :
  m ≫= f = Ok b ↔ ∃ a, m = Ok a ∧ f a = Ok b.
Proof.
  destruct m as [a|e]; simpl; split.
  - intros H. by exists a.
  - by intros (a' & [= <-] & H).
  - intros [=].
  - by intros (a' & [=] & _).
Qed.

Lemma bind_Raise {A B} (m : result A) (f : A → result B) (e : pyexc) :
  m ≫= f = Raise e ↔ m = Raise e ∨ ∃ a, m = Ok a ∧ f a = Raise e.
Proof.
  destruct m as [a|e']; simpl; split.
  - intros H. right. by exists a.
  - by intros [[=] | (a' & [= <-] & H)].
  - intros [= <-]. by left.
  - by intros [[= <-] | (a' & [=] & _)].
Qed.

(** Case analysis on a statement about which step raised. *)
Ltac break_steps :=
  intros;
  repeat match goal with
    | H : _ ∨ _ |- _ => destruct H
    | H : _ ∧ _ |- _ => destruct H
    | H : ∃ _, _ |- _ => destruct H
    | H : Ok _ = Ok _ |- _ => injection H as H; try subst
    | H : Raise _ = Raise _ |- _ => injection H as H; try subst
    | H : Ok _ = Raise _ |- _ => discriminate H
    | H : Raise _ = Ok _ |- _ => discriminate H
    end;
  try done; try congruence.

Lemma assert_Ok line cond : assert_ line cond = Ok () ↔ cond = true.
Proof. destruct cond; simpl; split; congruence. Qed.

Lemma assert_Raise line cond e :
  assert_ line cond = Raise e ↔ cond = false ∧ e = AssertionError line.
Proof. destruct cond; simpl; split; [done|intros [[=] _]|by intros [= <-]|by intros [_ ->]]. Qed.

(** ** The option names *)

Lemma default_conf_dom : dom default_conf = list_to_set option_names.
Proof. apply (bool_decide_unpack _). by vm_compute. Qed.

(** Membership of a literal in a literal list. *)
Ltac by_membership := apply (bool_decide_unpack _); by vm_compute.

Lemma elem_of_default_conf name :
  name ∈ dom default_conf ↔ name ∈ option_names.
Proof. rewrite default_conf_dom. apply elem_of_list_to_set. Qed.

Lemma option_names_not_class_attrs name :
  name ∈ option_names → (name ∉ class_attrs) ∧ name ≠ "conf"%string.
Proof.
  revert name. apply Forall_forall.
  apply (bool_decide_unpack _). by vm_compute.
Qed.

(** ** Binding the call (line 137) *)

Lemma bind_call_Ok kwargs :
  "self"%string ∉ dom kwargs → bind_call kwargs = Ok ().
Proof. intros H. unfold bind_call. by rewrite decide_False. Qed.

Lemma bind_call_Raise kwargs e :
  bind_call kwargs = Raise e ↔
  "self"%string ∈ dom kwargs ∧ e = TypeError 137.
Proof.
  unfold bind_call. case_decide; split; try done.
  - by intros [= <-].
  - by intros [_ ->].
  - by intros [? _].
Qed.

Lemma no_self_recognized (kwargs : gmap string pyval) :
  dom kwargs ⊆ dom default_conf → "self"%string ∉ dom kwargs.
Proof.
  intros Hsub Hin. apply Hsub, elem_of_default_conf in Hin.
  revert Hin. by_membership.
Qed.

(** ** Loading the options (lines 140-147) *)

Lemma load_conf_Ok kwargs :
  dom kwargs ⊆ dom default_conf →
  load_conf kwargs = Ok {| conf := kwargs ∪ default_conf; attrs := ∅ |}.
Proof.
  intros Hsub. unfold load_conf.
  destruct (decide _) as [Hne|_]; [|done].
  destruct Hne. by apply subseteq_empty_difference_L.
Qed.

Lemma load_conf_Raise kwargs :
  dom kwargs ⊈ dom default_conf →
  load_conf kwargs = Raise (ValueError_unrecognized (dom kwargs ∖ dom default_conf)).
Proof.
  intros Hsub. unfold load_conf.
  destruct (decide _) as [_|Hemp]; [done|].
  destruct Hsub. apply dec_stable in Hemp. by apply empty_difference_subseteq_L.
Qed.

Lemma load_conf_inv kwargs self :
  load_conf kwargs = Ok self →
  dom kwargs ⊆ dom default_conf
  ∧ self = {| conf := kwargs ∪ default_conf; attrs := ∅ |}.
Proof.
  intros H. destruct (decide (dom kwargs ⊆ dom default_conf)) as [Hs|Hs].
  - rewrite (load_conf_Ok _ Hs) in H. injection H as <-. by split.
  - by rewrite (load_conf_Raise _ Hs) in H.
Qed.

Lemma load_conf_Raise_inv kwargs e :
  load_conf kwargs = Raise e →
  dom kwargs ⊈ dom default_conf
  ∧ e = ValueError_unrecognized (dom kwargs ∖ dom default_conf).
Proof.
  intros H. destruct (decide (dom kwargs ⊆ dom default_conf)) as [Hs|Hs].
  - by rewrite (load_conf_Ok _ Hs) in H.
  - split; [done|]. pose proof (load_conf_Raise _ Hs) as H'. congruence.
Qed.

(** ** Where each step can raise *)

Lemma check_thresholds_line self e :
  check_thresholds self = Raise e →
  e = TypeError 150 ∨ e = AssertionError 150
  ∨ e = TypeError 151 ∨ e = AssertionError 151.
Proof.
  unfold check_thresholds. intros H.
  apply bind_Raise in H as [H | (b1 & _ & H)].
  { destruct (__getattr__ self "size_threshold"); simplify_eq/=; auto. }
  apply bind_Raise in H as [H | (_ & _ & H)].
  { apply assert_Raise in H as [_ ->]; auto. }
  apply bind_Raise in H as [H | (b2 & _ & H)].
  { destruct (__getattr__ self "content_threshold"); simplify_eq/=; auto. }
  apply assert_Raise in H as [_ ->]; auto.
Qed.

Lemma check_thresholds_low self z :
  __getattr__ self "size_threshold" = VInt z
  ∨ __getattr__ self "content_threshold" = VInt z →
  (z < -1)%Z →
  ∃ e, check_thresholds self = Raise e
       ∧ (e = AssertionError 150 ∨ e = AssertionError 151
          ∨ e = TypeError 150).
Proof.
  intros Hz Hlt. unfold check_thresholds.
  destruct Hz as [Hz|Hz]; rewrite Hz.
  - simpl. rewrite bool_decide_eq_false_2 by lia. simpl. eauto.
  - destruct (__getattr__ self "size_threshold") as [|b|s| | | |];
      simpl; eauto 6.
    + rewrite bool_decide_eq_false_2 by lia. simpl. eauto.
    + destruct (bool_decide (-1 ≤ s)%Z); simpl; [|eauto].
      rewrite bool_decide_eq_false_2 by lia. simpl. eauto.
Qed.

Lemma max_Raise s e : max_ s = Raise e → e = ValueError_empty_max.
Proof. unfold max_. destruct (elements s); by intros [=]. Qed.

Lemma min_Raise s e : min_ s = Raise e → e = ValueError_empty_max.
Proof. unfold min_. destruct (elements s); by intros [=]. Qed.

Lemma check_header_chars_line normalized_headers e :
  check_header_chars normalized_headers = Raise e →
  e = ValueError_empty_max ∨ e = AssertionError 161 ∨ e = AssertionError 162.
Proof.
  induction normalized_headers as [|hid rest IH]; [done|]. simpl. intros H.
  apply bind_Raise in H as [H | (mx & _ & H)].
  { apply max_Raise in H. auto. }
  apply bind_Raise in H as [H | (_ & _ & H)].
  { apply assert_Raise in H as [_ ->]; auto. }
  apply bind_Raise in H as [H | (mn & _ & H)].
  { apply min_Raise in H. auto. }
  apply bind_Raise in H as [H | (_ & _ & H)].
  { apply assert_Raise in H as [_ ->]; auto. }
  auto.
Qed.


(** ** [unique] keeps first occurrences *)

Lemma unique_iter_filter seen src :
  unique_iter seen src
  = filter (λ x, x ∉ seen) (keep_first_occurrences src).
Proof.
  revert seen. induction src as [|i src IH]; intros seen; [done|].
  simpl. destruct (decide (i ∈ seen)) as [Hin|Hin].
  - rewrite filter_cons_False by (intros H; by apply H).
    rewrite IH, list_filter_filter. apply list_filter_iff.
    intros y. split; [|tauto]. intros Hy. split; [done|congruence].
  - rewrite filter_cons_True by done. f_equal.
    rewrite IH, list_filter_filter. apply list_filter_iff.
    intros y. rewrite not_elem_of_union, not_elem_of_singleton. tauto.
Qed.

Lemma unique_keep_first src : unique src = keep_first_occurrences src.
Proof.
  unfold unique. rewrite unique_iter_filter.
  induction (keep_first_occurrences src) as [|x l IH]; [done|].
  rewrite filter_cons_True by apply not_elem_of_empty. by f_equal.
Qed.

Lemma elem_of_keep_first x l : x ∈ keep_first_occurrences l ↔ x ∈ l.
Proof.
  induction l as [|y l IH]; [done|]. simpl.
  rewrite !elem_of_cons, list_elem_of_filter, IH.
  destruct (decide (x = y)); tauto.
Qed.

Lemma keep_first_NoDup l : NoDup (keep_first_occurrences l).
Proof.
  induction l as [|y l IH]; simpl; [constructor|].
  constructor; [|by apply NoDup_filter].
  rewrite list_elem_of_filter. tauto.
Qed.

Lemma keep_first_sublist l : keep_first_occurrences l `sublist_of` l.
Proof.
  induction l as [|y l IH]; simpl; [done|].
  apply sublist_skip. etrans; [apply sublist_filter|done].
Qed.

Lemma keep_first_length l : length (keep_first_occurrences l) ≤ length l.
Proof. apply sublist_length, keep_first_sublist. Qed.

Lemma keep_first_NoDup_id l : NoDup l → keep_first_occurrences l = l.
Proof.
  induction 1 as [|x l Hx Hl IH]; [done|]. simpl. rewrite IH. f_equal.
  clear IH Hl. induction l as [|y l IH]; [done|].
  apply not_elem_of_cons in Hx as [Hxy Hx].
  rewrite filter_cons_True by done. f_equal. by apply IH.
Qed.

Lemma keep_first_length_NoDup l :
  length (keep_first_occurrences l) = length l ↔ NoDup l.
Proof.
  split; [|intros Hnd; by rewrite keep_first_NoDup_id].
  induction l as [|x l IH]; [constructor|]. simpl. intros Hlen.
  pose proof (keep_first_length l) as Hl.
  pose proof (length_filter (λ y, y ≠ x) (keep_first_occurrences l)) as Hf.
  constructor; [|apply IH; lia].
  intros Hx%elem_of_keep_first.
  apply (length_filter_lt (λ y, y ≠ x)) in Hx; [lia|]. by intros [].
Qed.

Lemma keep_first_idemp l :
  keep_first_occurrences (keep_first_occurrences l) = keep_first_occurrences l.
Proof. apply keep_first_NoDup_id, keep_first_NoDup. Qed.

(** What comes later is kept only if it did not occur earlier. *)
Lemma keep_first_app l1 l2 :
  keep_first_occurrences (l1 ++ l2)
  = keep_first_occurrences l1
    ++ filter (λ x, x ∉ l1) (keep_first_occurrences l2).
Proof.
  induction l1 as [|y l1 IH]; simpl.
  - symmetry. induction (keep_first_occurrences l2) as [|x l IHl]; [done|].
    rewrite filter_cons_True by apply not_elem_of_nil. by f_equal.
  - f_equal. rewrite IH, filter_app. f_equal.
    rewrite list_filter_filter. apply list_filter_iff.
    intros x. rewrite not_elem_of_cons. tauto.
Qed.

Lemma keep_first_Forall (P : pystr → Prop) l :
  Forall P (keep_first_occurrences l) ↔ Forall P l.
Proof.
  rewrite !Forall_forall. split; intros H x Hx; apply H;
    by apply elem_of_keep_first.
Qed.

(** ** The character check (lines 159-162) *)

Lemma foldr_max_le x l b :
  (foldr Z.max x l ≤ b)%Z ↔ (x ≤ b)%Z ∧ Forall (λ c, (c ≤ b)%Z) l.
Proof.
  induction l as [|y l IH]; simpl.
  - split; [by intros; split|tauto].
  - rewrite Forall_cons, Z.max_lub_iff, IH. tauto.
Qed.

Lemma foldr_min_ge x l b :
  (b ≤ foldr Z.min x l)%Z ↔ (b ≤ x)%Z ∧ Forall (λ c, (b ≤ c)%Z) l.
Proof.
  induction l as [|y l IH]; simpl.
  - split; [by intros; split|tauto].
  - rewrite Forall_cons, Z.min_glb_iff, IH. tauto.
Qed.

Lemma Forall_elements_list_to_set (P : Z → Prop) (hid : pystr) :
  Forall P (elements (list_to_set hid : gset Z)) ↔ Forall P hid.
Proof.
  rewrite !Forall_forall. split; intros H c Hc; apply H.
  - by apply elem_of_elements, elem_of_list_to_set.
  - by apply elem_of_elements, elem_of_list_to_set in Hc.
Qed.

Lemma elements_list_to_set_nil (hid : pystr) :
  elements (list_to_set hid : gset Z) = [] ↔ hid = [].
Proof.
  split.
  - intros H. destruct hid as [|c hid]; [done|].
    assert (c ∈ elements (list_to_set (c :: hid) : gset Z)) as Hc.
    { apply elem_of_elements, elem_of_list_to_set. by left. }
    rewrite H in Hc. by apply elem_of_nil in Hc.
  - intros ->. apply elements_empty.
Qed.

Lemma max_empty_name : max_ (list_to_set ([] : pystr)) = Raise ValueError_empty_max.
Proof. unfold max_. simpl. by rewrite elements_empty. Qed.

Lemma max_of_name (hid : pystr) :
  hid ≠ [] →
  ∃ mx, max_ (list_to_set hid) = Ok mx
        ∧ ∀ b, (mx ≤ b)%Z ↔ Forall (λ c, (c ≤ b)%Z) hid.
Proof.
  intros Hne. unfold max_.
  destruct (elements (list_to_set hid : gset Z)) as [|x l] eqn:E.
  { destruct Hne. by apply elements_list_to_set_nil. }
  eexists. split; [done|]. intros b.
  rewrite foldr_max_le, <-(Forall_elements_list_to_set _ hid), E.
  by rewrite Forall_cons.
Qed.

Lemma min_of_name (hid : pystr) :
  hid ≠ [] →
  ∃ mn, min_ (list_to_set hid) = Ok mn
        ∧ ∀ b, (b ≤ mn)%Z ↔ Forall (λ c, (b ≤ c)%Z) hid.
Proof.
  intros Hne. unfold min_.
  destruct (elements (list_to_set hid : gset Z)) as [|x l] eqn:E.
  { destruct Hne. by apply elements_list_to_set_nil. }
  eexists. split; [done|]. intros b.
  rewrite foldr_min_ge, <-(Forall_elements_list_to_set _ hid), E.
  by rewrite Forall_cons.
Qed.

Lemma printable_split (hid : pystr) :
  printable hid ↔
  Forall (λ c, (c ≤ 126)%Z) hid ∧ Forall (λ c, (33 ≤ c)%Z) hid.
Proof.
  unfold printable. rewrite !Forall_forall. split.
  - intros H. split; intros c Hc; apply H in Hc; lia.
  - intros [H1 H2] c Hc. specialize (H1 c Hc). specialize (H2 c Hc).
    simpl in *. lia.
Qed.

(** One turn of the loop on a name. *)
Lemma check_header_chars_cons hid rest :
  check_header_chars (hid :: rest) =
  if decide (hid = []) then Raise ValueError_empty_max
  else if decide (Forall (λ c, (c ≤ 126)%Z) hid) then
    if decide (Forall (λ c, (33 ≤ c)%Z) hid) then check_header_chars rest
    else Raise (AssertionError 162)
  else Raise (AssertionError 161).
Proof.
  simpl. destruct (decide (hid = [])) as [->|Hne].
  { by rewrite max_empty_name. }
  destruct (max_of_name hid Hne) as (mx & -> & Hmx).
  destruct (min_of_name hid Hne) as (mn & -> & Hmn). simpl.
  rewrite (bool_decide_ext _ _ (Hmx 126%Z)), (bool_decide_ext _ _ (Hmn 33%Z)).
  rewrite !bool_decide_decide. by repeat case_decide.
Qed.

Lemma check_header_chars_Ok normalized_headers :
  check_header_chars normalized_headers = Ok () ↔
  Forall (λ hid, hid ≠ [] ∧ printable hid) normalized_headers.
Proof.
  induction normalized_headers as [|hid rest IH].
  { split; [constructor|done]. }
  rewrite check_header_chars_cons, Forall_cons, printable_split, <-IH.
  repeat case_decide; split; try done; tauto.
Qed.

Lemma check_header_chars_app l1 l2 :
  check_header_chars l1 = Ok () →
  check_header_chars (l1 ++ l2) = check_header_chars l2.
Proof.
  induction l1 as [|hid l1 IH]; [done|].
  rewrite <-app_comm_cons, !check_header_chars_cons.
  by repeat case_decide.
Qed.
Section Config_properties.

Context (lower : pystr → pystr).
Context (resolve : pystr → option pystr) (exists_ : pystr → option bool).

Local Abbreviation init := (__init__ lower resolve exists_).

Lemma comprehension_Raise hs e :
  comprehension lower hs = Raise e → e = AttributeError 154.
Proof.
  induction hs as [|h hs IH]; [done|]. simpl. intros H.
  apply bind_Raise in H as [H | (x & _ & H)].
  { destruct h; by simplify_eq/=. }
  apply bind_Raise in H as [H | (xs & _ & H)]; [auto|done].
Qed.

Lemma normalize_headers_line self e :
  normalize_headers lower self = Raise e →
  e = TypeError 154 ∨ e = AttributeError 154.
Proof.
  unfold normalize_headers. intros H.
  apply bind_Raise in H as [H | (hs & _ & H)].
  { destruct (__getattr__ self "hash_headers"); simplify_eq/=; auto. }
  apply bind_Raise in H as [H | (xs & _ & H)]; [|done].
  apply comprehension_Raise in H. auto.
Qed.

Lemma check_export_line self e :
  check_export resolve exists_ self = Raise e →
  e = TypeError 168 ∨ e = OSError 168 ∨ e = OSError 169
  ∨ ∃ p, e = FileExistsError p.
Proof.
  unfold check_export. destruct (truthy _); [|done]. intros H.
  apply bind_Raise in H as [H | (p & _ & H)].
  { unfold Path_resolve in H.
    destruct (__getattr__ self "export"); simplify_eq/=; auto;
      destruct (resolve _); simplify_eq/=; auto. }
  apply bind_Raise in H as [H | (b & _ & H)].
  { unfold Path_exists in H. destruct (exists_ p); simplify_eq/=; auto. }
  destruct (_ && _); simplify_eq/=. eauto 6.
Qed.

(** The steps of the constructor, in the order of the source. *)
Lemma validate_Ok kwargs self' :
  validate lower kwargs = Ok self' ↔
  ∃ self normalized_headers,
    load_conf kwargs = Ok self
    ∧ check_thresholds self = Ok ()
    ∧ normalize_headers lower self = Ok normalized_headers
    ∧ check_header_chars normalized_headers = Ok ()
    ∧ self' = setattr self "hash_headers" (VTuple (VStr <$> normalized_headers)).
Proof.
  unfold validate. rewrite bind_Ok. split.
  - intros (self & Hl & H).
    apply bind_Ok in H as ([] & Ht & H).
    apply bind_Ok in H as (nh & Hn & H).
    apply bind_Ok in H as ([] & Hc & H).
    injection H as <-. by exists self, nh.
  - intros (self & nh & Hl & Ht & Hn & Hc & ->).
    exists self. split; [done|].
    rewrite Ht. simpl. rewrite Hn. simpl. by rewrite Hc.
Qed.

Lemma no_self_validated kwargs self :
  validate lower kwargs = Ok self → "self"%string ∉ dom kwargs.
Proof.
  intros (self0 & nh & Hl & _)%validate_Ok.
  apply load_conf_inv in Hl as [Hsub _]. by apply no_self_recognized.
Qed.

(** Once the call is bound, the body runs. *)
Lemma init_eq kwargs :
  "self"%string ∉ dom kwargs →
  init kwargs = (self ← validate lower kwargs;
                 check_export resolve exists_ self).
Proof. intros H. unfold __init__. by rewrite (bind_call_Ok _ H). Qed.

Lemma init_self kwargs :
  "self"%string ∈ dom kwargs → init kwargs = Raise (TypeError 137).
Proof.
  intros H. unfold __init__.
  by rewrite (proj2 (bind_call_Raise kwargs _) (conj H eq_refl)).
Qed.

Lemma init_Ok kwargs cfg :
  init kwargs = Ok cfg ↔
  ∃ self, validate lower kwargs = Ok self
          ∧ check_export resolve exists_ self = Ok cfg.
Proof.
  split.
  - unfold __init__. intros H. apply bind_Ok in H as ([] & _ & H).
    by apply bind_Ok in H.
  - intros (self & Hval & Hexp).
    rewrite init_eq by by eapply no_self_validated.
    apply bind_Ok. eauto.
Qed.

(** An exception of the body comes from exactly one step, the steps
    before it having succeeded. *)
Lemma steps_Raise kwargs e :
  (self ← validate lower kwargs; check_export resolve exists_ self)
  = Raise e ↔
  load_conf kwargs = Raise e
  ∨ ∃ self, load_conf kwargs = Ok self ∧
      (check_thresholds self = Raise e
       ∨ check_thresholds self = Ok () ∧
         (normalize_headers lower self = Raise e
          ∨ ∃ normalized_headers,
              normalize_headers lower self = Ok normalized_headers ∧
              (check_header_chars normalized_headers = Raise e
               ∨ check_header_chars normalized_headers = Ok () ∧
                 check_export resolve exists_
                   (setattr self "hash_headers"
                      (VTuple (VStr <$> normalized_headers))) = Raise e))).
Proof.
  unfold validate.
  destruct (load_conf kwargs) as [self|e0] eqn:E0; simpl;
    [|split; [auto|break_steps]].
  destruct (check_thresholds self) as [[]|e1] eqn:E1; simpl;
    [|split; [intros [= <-]; eauto|break_steps]].
  destruct (normalize_headers lower self) as [nh|e2] eqn:E2; simpl;
    [|split; [intros [= <-]; eauto 8|break_steps]].
  destruct (check_header_chars nh) as [[]|e3] eqn:E3; simpl;
    (split; [try intros [= <-]; eauto 12|break_steps]).
Qed.

(** An exception of the constructor comes from the binding of the call
    or from exactly one step of the body. *)
Lemma init_Raise kwargs e :
  init kwargs = Raise e ↔
  "self"%string ∈ dom kwargs ∧ e = TypeError 137
  ∨ ("self"%string ∉ dom kwargs) ∧
    (load_conf kwargs = Raise e
     ∨ ∃ self, load_conf kwargs = Ok self ∧
         (check_thresholds self = Raise e
          ∨ check_thresholds self = Ok () ∧
            (normalize_headers lower self = Raise e
             ∨ ∃ normalized_headers,
                 normalize_headers lower self = Ok normalized_headers ∧
                 (check_header_chars normalized_headers = Raise e
                  ∨ check_header_chars normalized_headers = Ok () ∧
                    check_export resolve exists_
                      (setattr self "hash_headers"
                         (VTuple (VStr <$> normalized_headers)))
                    = Raise e)))).
Proof.
  destruct (decide ("self"%string ∈ dom kwargs)) as [Hin|Hin].
  - rewrite (init_self _ Hin). split.
    + intros [= <-]. by left.
    + by intros [[_ ->] | [? _]].
  - rewrite (init_eq _ Hin), steps_Raise. split.
    + intros H. by right.
    + by intros [[? _] | [_ H]].
Qed.

(** Every exception of the constructor carries one of the lines 137-170,
    and the lines tell the steps apart. *)
Lemma init_Raise_line kwargs e :
  init kwargs = Raise e → 137 ≤ exc_line e ≤ 170.
Proof.
  rewrite init_Raise.
  intros [[_ ->] | (_ & [H | (self & _ & [H | (_ & [H | (nh & _ & [H | (_ & H)])])])])].
  - simpl. lia.
  - apply load_conf_Raise_inv in H as [_ ->]. simpl. lia.
  - apply check_thresholds_line in H as [-> | [-> | [-> | ->]]]; simpl; lia.
  - apply normalize_headers_line in H as [-> | ->]; simpl; lia.
  - apply check_header_chars_line in H as [-> | [-> | ->]]; simpl; lia.
  - apply check_export_line in H as [-> | [-> | [-> | [p ->]]]]; simpl; lia.
Qed.

(** ** Unrecognized options (lines 142-144) *)

Lemma unrecognized_iff (kwargs : gmap string pyval) :
  dom kwargs ⊆ dom default_conf ↔
  ∀ name, name ∈ dom kwargs → name ∈ option_names.
Proof.
  split.
  - intros H name Hn. apply elem_of_default_conf. by apply H.
  - intros H name Hn. apply elem_of_default_conf. by apply H.
Qed.

Lemma init_Raise_loaded kwargs self e :
  load_conf kwargs = Ok self → init kwargs = Raise e → 150 ≤ exc_line e.
Proof.
  intros Hl. rewrite init_Raise, Hl.
  intros [[Hin _] | (_ & [H | (self' & _ & [H | (_ & [H | (nh & _ & [H | (_ & H)])])])])].
  - apply load_conf_inv in Hl as [Hsub _].
    by destruct (no_self_recognized _ Hsub).
  - done.
  - apply check_thresholds_line in H as [-> | [-> | [-> | ->]]]; simpl; lia.
  - apply normalize_headers_line in H as [-> | ->]; simpl; lia.
  - apply check_header_chars_line in H as [-> | [-> | ->]]; simpl; lia.
  - apply check_export_line in H as [-> | [-> | [-> | [p ->]]]]; simpl; lia.
Qed.

(** C1 (amended). Keyword arguments that do not use the name [self] and
    name an option [default_conf] does not have make the constructor
    raise the ValueError of line 144, which carries exactly the
    unrecognized names, and no instance is produced; a keyword argument
    named [self] makes the call itself fail with a TypeError, before the
    check.  When every supplied name is a recognized option this check
    passes: the options are loaded over the defaults and whatever is
    raised afterwards comes from a later line. *)
Theorem unrecognized_options_rejected (kwargs : gmap string pyval) :
  ("self"%string ∈ dom kwargs →
     init kwargs = Raise (TypeError 137) ∧ ∀ cfg, init kwargs ≠ Ok cfg)
  ∧ ("self"%string ∉ dom kwargs →
     (∃ name, name ∈ dom kwargs ∧ name ∉ option_names) →
     ∃ unrecognized_options : gset string,
       init kwargs = Raise (ValueError_unrecognized unrecognized_options)
       ∧ unrecognized_options ≠ ∅
       ∧ (∀ name, name ∈ unrecognized_options ↔
                  name ∈ dom kwargs ∧ name ∉ option_names)
       ∧ ∀ cfg, init kwargs ≠ Ok cfg)
  ∧ ((∀ name, name ∈ dom kwargs → name ∈ option_names) →
     load_conf kwargs = Ok {| conf := kwargs ∪ default_conf; attrs := ∅ |}
     ∧ ∀ e, init kwargs = Raise e → 144 < exc_line e).
Proof.
  split_and!.
  - intros Hin. rewrite (init_self _ Hin). by split.
  - intros Hself (name & Hin & Hnot).
    assert (dom kwargs ⊈ dom default_conf) as Hsub.
    { intros Hsub. apply Hnot, elem_of_default_conf. by apply Hsub. }
    assert (init kwargs
            = Raise (ValueError_unrecognized (dom kwargs ∖ dom default_conf)))
      as Hinit.
    { rewrite init_eq by done. unfold validate.
      by rewrite (load_conf_Raise _ Hsub). }
    exists (dom kwargs ∖ dom default_conf). split_and!.
    + done.
    + intros Hemp. by apply Hsub, empty_difference_subseteq_L.
    + intros n. rewrite elem_of_difference. by rewrite elem_of_default_conf.
    + intros cfg. by rewrite Hinit.
  - intros Hall. apply unrecognized_iff in Hall.
    rewrite (load_conf_Ok _ Hall). split; [done|].
    intros e He. eapply init_Raise_loaded in He; [lia|by apply load_conf_Ok].
Qed.

(** ** Thresholds (lines 149-151) *)

Lemma getattr_conf self name v :
  conf self !! name = Some v → __getattr__ self name = v.
Proof. unfold __getattr__. by intros ->. Qed.

Lemma getattr_loaded (kwargs : gmap string pyval) name v :
  (kwargs ∪ default_conf) !! name = Some v →
  __getattr__ {| conf := kwargs ∪ default_conf; attrs := ∅ |} name = v.
Proof. unfold __getattr__. simpl. by intros ->. Qed.

Lemma check_thresholds_Ok self s c :
  __getattr__ self "size_threshold" = VInt s →
  __getattr__ self "content_threshold" = VInt c →
  check_thresholds self = Ok () ↔ (-1 ≤ s ∧ -1 ≤ c)%Z.
Proof.
  intros Hs Hc. unfold check_thresholds. rewrite Hs, Hc. simpl.
  destruct (bool_decide_reflect (-1 ≤ s)%Z); simpl;
    [destruct (bool_decide_reflect (-1 ≤ c)%Z); simpl|]; split; (done || lia).
Qed.

(** C3. A supplied [size_threshold] or [content_threshold] strictly
    below -1 makes the construction fail, at the latest at the threshold
    assertions; among recognized options the exception is the
    AssertionError of line 150 or 151 (or the TypeError of line 150 when
    the other threshold is no number).  When both thresholds in force are
    at least -1, the value -1 included, the threshold check passes. *)
Theorem thresholds_at_least_minus_one (kwargs : gmap string pyval) :
  (∀ z, kwargs !! "size_threshold" = Some (VInt z)
        ∨ kwargs !! "content_threshold" = Some (VInt z) →
        (z < -1)%Z →
        ∃ e, init kwargs = Raise e
             ∧ exc_line e ≤ 151
             ∧ (dom kwargs ⊆ dom default_conf →
                e = AssertionError 150 ∨ e = AssertionError 151
                ∨ e = TypeError 150))
  ∧ (∀ s c, dom kwargs ⊆ dom default_conf →
        (kwargs ∪ default_conf) !! "size_threshold" = Some (VInt s) →
        (kwargs ∪ default_conf) !! "content_threshold" = Some (VInt c) →
        (-1 ≤ s)%Z → (-1 ≤ c)%Z →
        check_thresholds {| conf := kwargs ∪ default_conf; attrs := ∅ |}
          = Ok ()
        ∧ ∀ e, init kwargs = Raise e → 151 < exc_line e).
Proof.
  split.
  - intros z Hz Hlt.
    destruct (decide (dom kwargs ⊆ dom default_conf)) as [Hsub|Hsub].
    2:{ destruct (decide ("self"%string ∈ dom kwargs)) as [Hin|Hin].
        - rewrite (init_self _ Hin).
          eexists. split_and!; [done|simpl; lia|done].
        - rewrite init_eq by done. unfold validate.
          rewrite (load_conf_Raise _ Hsub), !bind_raise_l.
          eexists. split_and!; [done|simpl; lia|done]. }
    destruct (check_thresholds_low
                {| conf := kwargs ∪ default_conf; attrs := ∅ |} z)
      as (e & He & Hcases); [|done|].
    { destruct Hz as [Hz|Hz]; [left|right];
        apply getattr_loaded; by apply lookup_union_Some_l. }
    exists e. split_and!; [|by destruct Hcases as [-> | [-> | ->]]; simpl; lia
                           |done].
    rewrite init_eq by by apply no_self_recognized. unfold validate.
    by rewrite (load_conf_Ok _ Hsub), bind_unit_l, He, !bind_raise_l.
  - intros s c Hsub Hs Hc Hs1 Hc1.
    assert (check_thresholds {| conf := kwargs ∪ default_conf; attrs := ∅ |}
            = Ok ()) as Hok.
    { eapply check_thresholds_Ok; [by apply getattr_loaded..|done]. }
    split; [done|]. intros e. rewrite init_Raise, (load_conf_Ok _ Hsub).
    intros [[Hin _] | (_ & [H | (self' & [= <-] & [H | (_ & [H | (nh & _ & [H | (_ & H)])])])])].
    + by destruct (no_self_recognized _ Hsub).
    + done.
    + by rewrite Hok in H.
    + apply normalize_headers_line in H as [-> | ->]; simpl; lia.
    + apply check_header_chars_line in H as [-> | [-> | ->]]; simpl; lia.
    + apply check_export_line in H as [-> | [-> | [-> | [p ->]]]]; simpl; lia.
Qed.

(** ** Header normalization (lines 153-163) *)

Lemma comprehension_names names :
  comprehension lower (VStr <$> names) = Ok (lower <$> names).
Proof.
  induction names as [|h names IH]; [done|].
  rewrite !fmap_cons. cbn [comprehension call_lower].
  by rewrite bind_unit_l, IH.
Qed.

Lemma comprehension_elem items xs s :
  comprehension lower items = Ok xs → VStr s ∈ items → lower s ∈ xs.
Proof.
  revert xs. induction items as [|h items IH]; intros xs H Hin.
  { by apply elem_of_nil in Hin. }
  simpl in H. apply bind_Ok in H as (x & Hx & H).
  apply bind_Ok in H as (xs' & Hxs & [= <-]).
  apply elem_of_cons in Hin as [<- | Hin].
  - injection Hx as <-. by left.
  - right. by apply IH.
Qed.

Lemma normalize_headers_names self names :
  header_list (__getattr__ self "hash_headers") names →
  normalize_headers lower self
  = Ok (keep_first_occurrences (lower <$> names)).
Proof.
  unfold normalize_headers.
  intros [-> | ->]; unfold iterate;
    by rewrite bind_unit_l, comprehension_names, bind_unit_l,
         unique_keep_first.
Qed.

Lemma check_export_Ok self cfg :
  check_export resolve exists_ self = Ok cfg →
  cfg = self ∨ ∃ p, cfg = setattr self "export" (VPath p).
Proof.
  unfold check_export. destruct (truthy _); [|intros [= <-]; by left].
  intros H. apply bind_Ok in H as (p & _ & H).
  apply bind_Ok in H as (b & _ & H).
  destruct (_ && _); [done|]. injection H as <-. eauto.
Qed.

Lemma validate_inv kwargs self :
  validate lower kwargs = Ok self →
  ∃ normalized_headers,
    dom kwargs ⊆ dom default_conf
    ∧ check_thresholds {| conf := kwargs ∪ default_conf; attrs := ∅ |} = Ok ()
    ∧ normalize_headers lower {| conf := kwargs ∪ default_conf; attrs := ∅ |}
      = Ok normalized_headers
    ∧ check_header_chars normalized_headers = Ok ()
    ∧ self = {| conf := kwargs ∪ default_conf;
                attrs := {[ "hash_headers"%string :=
                              VTuple (VStr <$> normalized_headers) ]} |}.
Proof.
  rewrite validate_Ok. intros (self0 & nh & Hl & Ht & Hn & Hc & ->).
  apply load_conf_inv in Hl as [Hsub ->]. by exists nh.
Qed.

Lemma hash_headers_normalized_aux kwargs cfg v names :
  init kwargs = Ok cfg →
  (kwargs ∪ default_conf) !! "hash_headers" = Some v →
  header_list v names →
  getattr cfg "hash_headers"
  = Val (VTuple (VStr <$> keep_first_occurrences (lower <$> names))).
Proof.
  intros Hinit Hv Hnames. apply init_Ok in Hinit as (self & Hval & Hexp).
  apply validate_inv in Hval as (nh & _ & _ & Hn & _ & ->).
  rewrite (normalize_headers_names _ names) in Hn
    by by rewrite (getattr_loaded _ _ _ Hv).
  injection Hn as <-.
  apply check_export_Ok in Hexp as [-> | [p ->]]; by vm_compute.
Qed.

(** C2. On a constructed instance, [hash_headers] is the tuple of the
    header names in force (supplied, or the default ones), each
    lower-cased, every name kept at its first occurrence only: no name
    twice, the same names, in the order of the lower-cased list. *)
Theorem hash_headers_normalized kwargs cfg v names :
  init kwargs = Ok cfg →
  (kwargs ∪ default_conf) !! "hash_headers" = Some v →
  header_list v names →
  ∃ hash_headers,
    getattr cfg "hash_headers" = Val (VTuple (VStr <$> hash_headers))
    ∧ hash_headers = keep_first_occurrences (lower <$> names)
    ∧ NoDup hash_headers
    ∧ (∀ h, h ∈ hash_headers ↔ h ∈ lower <$> names)
    ∧ hash_headers `sublist_of` (lower <$> names).
Proof.
  intros Hinit Hv Hnames. apply init_Ok in Hinit as (self & Hval & Hexp).
  apply validate_inv in Hval as (nh & _ & _ & Hn & _ & ->).
  rewrite (normalize_headers_names _ names) in Hn
    by by rewrite (getattr_loaded _ _ _ Hv).
  injection Hn as <-.
  exists (keep_first_occurrences (lower <$> names)). split_and!.
  - apply check_export_Ok in Hexp as [-> | [p ->]]; by vm_compute.
  - done.
  - apply keep_first_NoDup.
  - intros h. apply elem_of_keep_first.
  - apply keep_first_sublist.
Qed.

(** ** The character check on the constructor *)

Lemma init_Ok_headers kwargs cfg v items :
  init kwargs = Ok cfg →
  (kwargs ∪ default_conf) !! "hash_headers" = Some v →
  v = VList items ∨ v = VTuple items →
  ∀ s, VStr s ∈ items → lower s ≠ [] ∧ printable (lower s).
Proof.
  intros Hinit Hv Hitems s Hs. apply init_Ok in Hinit as (self & Hval & _).
  apply validate_inv in Hval as (nh & _ & _ & Hn & Hc & _).
  unfold normalize_headers in Hn. rewrite (getattr_loaded _ _ _ Hv) in Hn.
  assert (iterate 154 v = Ok items) as Hi by by destruct Hitems as [-> | ->].
  rewrite Hi, bind_unit_l in Hn. apply bind_Ok in Hn as (xs & Hxs & [= <-]).
  rewrite unique_keep_first, check_header_chars_Ok, keep_first_Forall,
    Forall_forall in Hc.
  apply Hc. by eapply comprehension_elem.
Qed.

Lemma header_list_items v names :
  header_list v names →
  v = VList (VStr <$> names) ∨ v = VTuple (VStr <$> names).
Proof. done. Qed.

(** C4 (amended). When no lower-cased header name is empty, the
    construction gets past the character check exactly when every
    character of every lower-cased name has a code from 33 to 126.  A name
    with a character outside that range makes the construction fail, at
    the character check at the latest. *)
Theorem header_names_printable kwargs v names :
  (kwargs ∪ default_conf) !! "hash_headers" = Some v →
  header_list v names →
  (dom kwargs ⊆ dom default_conf →
   check_thresholds {| conf := kwargs ∪ default_conf; attrs := ∅ |} = Ok () →
   Forall (λ h, lower h ≠ []) names →
   (∃ self, validate lower kwargs = Ok self) ↔
   Forall (λ h, printable (lower h)) names)
  ∧ (¬ Forall (λ h, printable (lower h)) names →
     ∃ e, init kwargs = Raise e ∧ exc_line e ≤ 162).
Proof.
  intros Hv Hnames. split.
  - intros Hsub Ht Hne. split.
    + intros (self & Hval).
      apply validate_inv in Hval as (nh & _ & _ & Hn & Hc & _).
      rewrite (normalize_headers_names _ names) in Hn
        by by rewrite (getattr_loaded _ _ _ Hv).
      injection Hn as <-.
      rewrite check_header_chars_Ok, keep_first_Forall in Hc.
      rewrite Forall_fmap in Hc. eapply Forall_impl; [exact Hc|].
      simpl. tauto.
    + intros Hp. eexists. apply validate_Ok.
      eexists _, _. split_and!; [by apply load_conf_Ok|done| |
                                  |done].
      * apply normalize_headers_names. by rewrite (getattr_loaded _ _ _ Hv).
      * rewrite check_header_chars_Ok, keep_first_Forall.
        rewrite Forall_fmap. rewrite Forall_forall in *. intros h Hh.
        simpl. split; [by apply Hne|by apply Hp].
  - intros Hnot. destruct (init kwargs) as [cfg|e] eqn:E.
    + destruct Hnot. apply Forall_forall. intros h Hh.
      eapply init_Ok_headers;
        [done|done|by apply header_list_items|].
      by apply list_elem_of_fmap_2.
    + exists e. split; [done|].
      apply init_Raise in E
          as [[_ ->] | (_ & [H | (self & Hl & [H | (Ht & [H | (nh & Hn & [H | (Hc & _)])])])])].
      * simpl. lia.
      * apply load_conf_Raise_inv in H as [_ ->]. simpl. lia.
      * apply check_thresholds_line in H as [-> | [-> | [-> | ->]]]; simpl; lia.
      * apply normalize_headers_line in H as [-> | ->]; simpl; lia.
      * apply check_header_chars_line in H as [-> | [-> | ->]]; simpl; lia.
      * destruct Hnot. apply load_conf_inv in Hl as [_ ->].
        rewrite (normalize_headers_names _ names) in Hn
          by by rewrite (getattr_loaded _ _ _ Hv).
        injection Hn as <-.
        rewrite check_header_chars_Ok, keep_first_Forall in Hc.
        rewrite Forall_fmap in Hc. eapply Forall_impl; [exact Hc|].
        simpl. tauto.
Qed.

(** C10. A [hash_headers] list that contains an empty string always makes
    the construction fail, no instance being produced; when the
    construction reaches that name (the options are recognized, the
    thresholds pass, the names before it pass the character check), what
    is raised is the ValueError of [max] on an empty set, at line 161. *)
Theorem empty_header_name_rejected kwargs v items :
  lower [] = [] →
  (kwargs ∪ default_conf) !! "hash_headers" = Some v →
  v = VList items ∨ v = VTuple items →
  VStr [] ∈ items →
  (∃ e, init kwargs = Raise e)
  ∧ (∀ cfg, init kwargs ≠ Ok cfg)
  ∧ (∀ before after,
       dom kwargs ⊆ dom default_conf →
       check_thresholds {| conf := kwargs ∪ default_conf; attrs := ∅ |}
         = Ok () →
       items = VStr <$> (before ++ [] :: after) →
       Forall (λ h, lower h ≠ [] ∧ printable (lower h)) before →
       init kwargs = Raise ValueError_empty_max
       ∧ exc_line ValueError_empty_max = 161).
Proof.
  intros Hlow Hv Hitems Hin.
  assert (∀ cfg, init kwargs ≠ Ok cfg) as Hfail.
  { intros cfg Hinit.
    destruct (init_Ok_headers _ _ _ _ Hinit Hv Hitems [] Hin) as [Hne _].
    by apply Hne. }
  split_and!; [|done|].
  - destruct (init kwargs) as [cfg|e] eqn:E; [by destruct (Hfail cfg)|eauto].
  - intros before after Hsub Ht -> Hbefore. split; [|done].
    rewrite init_eq by by apply no_self_recognized. unfold validate.
    rewrite (load_conf_Ok _ Hsub). simpl.
    rewrite Ht. simpl.
    rewrite (normalize_headers_names _ (before ++ [] :: after)).
    2:{ rewrite (getattr_loaded _ _ _ Hv). by apply header_list_items. }
    simpl. rewrite fmap_app, keep_first_app. simpl. rewrite Hlow.
    rewrite filter_cons_True.
    2:{ intros (h & Hh & Hb)%list_elem_of_fmap.
        rewrite Forall_forall in Hbefore. apply Hbefore in Hb as [Hne _].
        by apply Hne. }
    rewrite check_header_chars_app.
    2:{ rewrite check_header_chars_Ok, keep_first_Forall.
        by rewrite Forall_fmap. }
    by rewrite check_header_chars_cons.
Qed.

(** ** The attribute protocol during and after construction *)

(** Each [self.option] that [__init__] reads before assigning it is
    answered by [__getattr__]. *)
Lemma getattr_option_fallback self name :
  name ∈ option_names → attrs self !! name = None →
  getattr self name = Val (__getattr__ self name).
Proof.
  intros [Hc Hn]%option_names_not_class_attrs Ha. unfold getattr.
  rewrite decide_False, Ha by done. by rewrite decide_False.
Qed.

Lemma is_True_spec v : is_True v = true ↔ v = VBool true.
Proof. destruct v as [|[]| | | | |]; simpl; split; congruence. Qed.

(** The shape of a constructed instance. *)
Lemma init_Ok_shape kwargs cfg :
  init kwargs = Ok cfg →
  dom kwargs ⊆ dom default_conf
  ∧ conf cfg = kwargs ∪ default_conf
  ∧ ∃ normalized_headers,
      let self := {| conf := kwargs ∪ default_conf;
                     attrs := {[ "hash_headers"%string :=
                                   VTuple (VStr <$> normalized_headers) ]} |}
      in validate lower kwargs = Ok self
         ∧ (truthy (__getattr__ self "export") = false ∧ cfg = self
            ∨ truthy (__getattr__ self "export") = true
              ∧ ∃ p, cfg = setattr self "export" (VPath p)).
Proof.
  intros (self & Hval & Hexp)%init_Ok.
  destruct (validate_inv _ _ Hval) as (nh & Hsub & _ & _ & _ & ->).
  split; [done|]. unfold check_export in Hexp.
  destruct (truthy _) eqn:Et.
  - apply bind_Ok in Hexp as (p & _ & H).
    apply bind_Ok in H as (b & _ & H).
    destruct (_ && _); [done|]. injection H as <-.
    split; [done|]. exists nh. simpl. split; [done|]. right. eauto.
  - injection Hexp as <-. split; [done|]. exists nh. simpl. split; [done|].
    by left.
Qed.

(** ** The export destination (lines 165-170) *)

Lemma check_export_set self v s p b :
  __getattr__ self "export" = v →
  (v = VStr s ∧ s ≠ [] ∨ v = VPath s) →
  resolve s = Some p →
  exists_ p = Some b →
  check_export resolve exists_ self =
  if b && negb (is_True (__getattr__ self "export_append"))
  then Raise (FileExistsError p)
  else Ok (setattr self "export" (VPath p)).
Proof.
  intros Hv Hs Hr He. unfold check_export. rewrite Hv.
  assert (truthy v = true) as ->.
  { destruct Hs as [[-> Hne] | ->]; simpl; [by apply bool_decide_eq_true|done]. }
  assert (Path_resolve resolve v = Ok p) as ->.
  { unfold Path_resolve. destruct Hs as [[-> _] | ->]; by rewrite Hr. }
  rewrite bind_unit_l. unfold Path_exists. rewrite He. by rewrite bind_unit_l.
Qed.

(** C5. With an export destination set (a non-empty string or a path)
    that resolves to a path [p]: if [p] exists and [export_append] is not
    [True], the construction fails, and once the preceding validation has
    passed it fails with [FileExistsError(p)]; if [p] does not exist, or
    [export_append] is [True], the export check passes and the instance
    is constructed with [export] bound to [p]. *)
Theorem export_destination_must_not_exist kwargs v s p append :
  (kwargs ∪ default_conf) !! "export" = Some v →
  (v = VStr s ∧ s ≠ [] ∨ v = VPath s) →
  resolve s = Some p →
  (kwargs ∪ default_conf) !! "export_append" = Some append →
  (exists_ p = Some true → append ≠ VBool true →
     (∃ e, init kwargs = Raise e)
     ∧ ∀ self, validate lower kwargs = Ok self →
               init kwargs = Raise (FileExistsError p))
  ∧ (exists_ p = Some false ∨ append = VBool true ∧ is_Some (exists_ p) →
     ∀ self, validate lower kwargs = Ok self →
             check_export resolve exists_ self
               = Ok (setattr self "export" (VPath p))
             ∧ init kwargs = Ok (setattr self "export" (VPath p))).
Proof.
  intros Hv Hs Hr Ha.
  assert (∀ self b, validate lower kwargs = Ok self → exists_ p = Some b →
            check_export resolve exists_ self =
            if b && negb (is_True append) then Raise (FileExistsError p)
            else Ok (setattr self "export" (VPath p))) as Hexp.
  { intros self b Hval Hb.
    apply validate_inv in Hval as (nh & _ & _ & _ & _ & ->).
    erewrite check_export_set; [|by apply getattr_loaded|done..].
    unfold __getattr__. simpl. by rewrite Ha. }
  split.
  - intros He Hne.
    assert (is_True append = false) as Hf.
    { apply not_true_is_false. by rewrite is_True_spec. }
    assert (∀ self, validate lower kwargs = Ok self →
              init kwargs = Raise (FileExistsError p)) as Hraise.
    { intros self Hval. rewrite init_eq by by eapply no_self_validated.
      rewrite Hval, bind_unit_l.
      rewrite (Hexp self true Hval He), Hf. done. }
    split; [|done].
    destruct (validate lower kwargs) as [self|e] eqn:E; [eauto|].
    destruct (init kwargs) as [cfg|e'] eqn:E'; [|eauto].
    apply init_Ok in E' as (self & Hval & _). congruence.
  - intros Hcase self Hval.
    assert (check_export resolve exists_ self
            = Ok (setattr self "export" (VPath p))) as Hok.
    { destruct Hcase as [He | [-> [b He]]].
      - by rewrite (Hexp self false Hval He).
      - rewrite (Hexp self b Hval He). simpl. by rewrite andb_false_r. }
    split; [done|]. rewrite init_eq by by eapply no_self_validated.
    by rewrite Hval, bind_unit_l.
Qed.

(** ** Defaults (lines 118-147) *)

Lemma HASH_HEADERS_lower :
  lower_agrees_on_ascii lower →
  keep_first_occurrences (lower <$> HASH_HEADERS) = default_hash_headers.
Proof.
  intros Hlow.
  assert (lower <$> HASH_HEADERS = ascii_lower <$> HASH_HEADERS) as ->.
  { apply Forall_fmap_ext. eapply Forall_impl; [|exact Hlow].
    apply (bool_decide_unpack _). by vm_compute. }
  by vm_compute.
Qed.

Lemma init_no_options :
  lower_agrees_on_ascii lower →
  init ∅ = Ok {| conf := default_conf;
                 attrs := {[ "hash_headers"%string :=
                               VTuple (VStr <$> default_hash_headers) ]} |}.
Proof.
  intros Hlow.
  assert (load_conf ∅ = Ok {| conf := default_conf; attrs := ∅ |}) as Hl.
  { rewrite load_conf_Ok; [by rewrite (left_id_L ∅ (∪))|].
    rewrite dom_empty_L. apply empty_subseteq. }
  rewrite init_eq by (rewrite dom_empty_L; apply not_elem_of_empty).
  unfold validate. rewrite Hl, bind_unit_l.
  assert (check_thresholds {| conf := default_conf; attrs := ∅ |} = Ok ())
    as -> by by vm_compute.
  rewrite bind_unit_l, (normalize_headers_names _ HASH_HEADERS) by by right.
  rewrite bind_unit_l, HASH_HEADERS_lower by done.
  assert (check_header_chars default_hash_headers = Ok ()) as ->
    by by vm_compute.
  rewrite !bind_unit_l. by vm_compute.
Qed.

(** C6. In a constructed instance every supplied option holds the
    supplied value and every omitted option its default, in the [conf]
    mapping and, for the options the constructor does not rebind
    ([hash_headers] and [export] are), through attribute access as well.
    With no option supplied the construction succeeds and
    [size_threshold] is 512, [content_threshold] 768, [dry_run] False,
    [export] None and [hash_headers] the ten default names,
    lower-cased. *)
Theorem defaults_and_supplied_options :
  (∀ kwargs cfg, init kwargs = Ok cfg →
     (∀ name, name ∈ dom kwargs → name ∈ option_names)
     ∧ (∀ name v, kwargs !! name = Some v → conf cfg !! name = Some v)
     ∧ (∀ name, kwargs !! name = None →
                conf cfg !! name = default_conf !! name)
     ∧ (∀ name v, (kwargs ∪ default_conf) !! name = Some v →
                  name ≠ "hash_headers"%string → name ≠ "export"%string →
                  getattr cfg name = Val v))
  ∧ (lower_agrees_on_ascii lower →
     ∃ cfg, init ∅ = Ok cfg
            ∧ getattr cfg "size_threshold" = Val (VInt 512)
            ∧ getattr cfg "content_threshold" = Val (VInt 768)
            ∧ getattr cfg "dry_run" = Val (VBool false)
            ∧ getattr cfg "export" = Val VNone
            ∧ getattr cfg "hash_headers"
              = Val (VTuple (VStr <$> default_hash_headers))
            ∧ length default_hash_headers = 10
            ∧ conf cfg = default_conf).
Proof.
  split.
  - intros kwargs cfg Hinit.
    destruct (init_Ok_shape _ _ Hinit) as (Hsub & Hconf & nh & _ & Hcfg).
    split_and!.
    + by apply unrecognized_iff.
    + intros name v Hk. rewrite Hconf. by apply lookup_union_Some_l.
    + intros name Hk. rewrite Hconf. by apply lookup_union_r.
    + intros name v Hv Hh He.
      assert (name ∈ option_names) as Hopt.
      { apply elem_of_default_conf, elem_of_dom.
        apply lookup_union_Some_raw in Hv as [Hv | [_ Hv]]; [|eauto].
        apply elem_of_dom. apply Hsub, elem_of_dom. eauto. }
      rewrite getattr_option_fallback; [|done|].
      * unfold __getattr__. by rewrite Hconf, Hv.
      * simpl in Hcfg. destruct Hcfg as [[_ ->] | [_ [p ->]]]; simpl.
        -- by rewrite lookup_singleton_ne.
        -- rewrite lookup_insert_ne by done. by rewrite lookup_singleton_ne.
  - intros Hlow. eexists. split; [by apply init_no_options|].
    split_and!; [by vm_compute..|done].
Qed.

Lemma normalize_headers_string self s :
  __getattr__ self "hash_headers" = VStr s →
  normalize_headers lower self
  = Ok (keep_first_occurrences ((λ c, lower [c]) <$> s)).
Proof.
  intros Hv. unfold normalize_headers. rewrite Hv. unfold iterate.
  rewrite bind_unit_l.
  assert ((λ c, VStr [c]) <$> s = VStr <$> ((λ c, [c]) <$> s)) as ->
    by by rewrite <-list_fmap_compose.
  rewrite comprehension_names, bind_unit_l, unique_keep_first.
  by rewrite <-list_fmap_compose.
Qed.

Lemma Path_resolve_Ok v p :
  Path_resolve resolve v = Ok p →
  ∃ s, (v = VStr s ∨ v = VPath s) ∧ resolve s = Some p.
Proof.
  unfold Path_resolve. destruct v as [| | |s| | |s]; try done;
    destruct (resolve s) as [p'|] eqn:E; try done;
    intros [= <-]; eauto.
Qed.

(** C9 (amended). On a constructed instance, a name that is neither a
    real attribute (an entry of the instance dictionary or a name of the
    class) nor a key of [conf] evaluates to [None]; a key of [conf]
    evaluates to the stored value unless the constructor rebound it as an
    instance attribute: [hash_headers] always evaluates to the normalized
    tuple (the lower-cased names of the stored list or tuple, or the
    lower-cased characters of the stored string, first occurrences
    only), and [export], when a destination is set, to the path the
    stored string or path resolves to. *)
Theorem attribute_access_falls_back_to_conf kwargs cfg :
  init kwargs = Ok cfg →
  (∀ name, name ≠ "conf"%string → attrs cfg !! name = None →
           name ∉ class_attrs → conf cfg !! name = None →
           getattr cfg name = Val VNone)
  ∧ (∀ name v, conf cfg !! name = Some v →
               name ≠ "hash_headers"%string →
               (name = "export"%string → truthy v = false) →
               getattr cfg name = Val v)
  ∧ (∃ hash_headers,
       getattr cfg "hash_headers" = Val (VTuple (VStr <$> hash_headers))
       ∧ (∀ v names, conf cfg !! "hash_headers" = Some v →
                     header_list v names →
                     hash_headers = keep_first_occurrences (lower <$> names))
       ∧ (∀ s, conf cfg !! "hash_headers" = Some (VStr s) →
               hash_headers
               = keep_first_occurrences ((λ c, lower [c]) <$> s)))
  ∧ (∀ v, conf cfg !! "export" = Some v → truthy v = true →
          ∃ s p, (v = VStr s ∨ v = VPath s)
                 ∧ resolve s = Some p
                 ∧ getattr cfg "export" = Val (VPath p)).
Proof.
  intros Hinit.
  destruct (init_Ok_shape _ _ Hinit) as (Hsub & Hconf & nh' & _ & Hcfg).
  simpl in Hcfg. split_and!.
  - intros name Hn Ha Hc Hk. unfold getattr, __getattr__.
    rewrite decide_False, Ha by done. by rewrite decide_False, Hk.
  - intros name v Hv Hh He.
    assert (name ∈ option_names) as Hopt.
    { apply elem_of_default_conf, elem_of_dom. rewrite Hconf in Hv.
      apply lookup_union_Some_raw in Hv as [Hv | [_ Hv]]; [|eauto].
      apply elem_of_dom. apply Hsub, elem_of_dom. eauto. }
    rewrite getattr_option_fallback; [|done|].
    + unfold __getattr__. by rewrite Hv.
    + destruct Hcfg as [[_ ->] | [Ht [p ->]]]; simpl.
      * by rewrite lookup_singleton_ne.
      * rewrite lookup_insert_ne, lookup_singleton_ne; [done..|].
        intros <-. unfold __getattr__ in Ht. simpl in Ht.
        rewrite <-Hconf, Hv in Ht. rewrite He in Ht; done.
  - clear Hcfg nh'. apply init_Ok in Hinit as (self & Hval & Hexp).
    apply validate_inv in Hval as (nh & _ & _ & Hn & _ & ->).
    exists nh. split_and!.
    + apply check_export_Ok in Hexp as [-> | [p ->]]; by vm_compute.
    + intros v names Hv Hnames. rewrite Hconf in Hv.
      rewrite (normalize_headers_names _ names) in Hn
        by by rewrite (getattr_loaded _ _ _ Hv).
      by injection Hn as <-.
    + intros s Hv. rewrite Hconf in Hv.
      rewrite (normalize_headers_string _ s) in Hn
        by by apply getattr_loaded.
      by injection Hn as <-.
  - clear Hcfg nh'. intros v Hv Ht.
    apply init_Ok in Hinit as (self & Hval & Hexp).
    apply validate_inv in Hval as (nh & _ & _ & _ & _ & ->).
    rewrite Hconf in Hv. unfold check_export in Hexp.
    rewrite (getattr_conf _ "export" v) in Hexp by done.
    rewrite Ht in Hexp.
    apply bind_Ok in Hexp as (p & Hp & Hexp).
    apply bind_Ok in Hexp as (b & _ & Hexp).
    destruct (_ && _); [done|]. injection Hexp as <-.
    apply Path_resolve_Ok in Hp as (s & Hs & Hr).
    exists s, p. split_and!; [done..|]. by vm_compute.
Qed.

(** ** Further properties of the constructor *)

(** X1. The constructor neither adds nor drops a key: the [conf] of a
    constructed instance has exactly the sixteen option names as keys. *)
Theorem conf_keys_are_the_options kwargs cfg :
  init kwargs = Ok cfg →
  dom (conf cfg) = dom default_conf
  ∧ ∀ name, is_Some (conf cfg !! name) ↔ name ∈ option_names.
Proof.
  intros Hinit.
  destruct (init_Ok_shape _ _ Hinit) as (Hsub & Hconf & _).
  assert (dom (conf cfg) = dom default_conf) as Hdom.
  { rewrite Hconf, dom_union_L. by apply subseteq_union_1_L. }
  split; [done|]. intros name.
  by rewrite <-elem_of_dom, Hdom, elem_of_default_conf.
Qed.

(** X2. A [hash_headers] given as a plain string is iterated character by
    character: every character becomes a header name of its own. *)
Theorem hash_headers_string_is_split kwargs cfg s :
  init kwargs = Ok cfg →
  (kwargs ∪ default_conf) !! "hash_headers" = Some (VStr s) →
  getattr cfg "hash_headers"
  = Val (VTuple (VStr <$> keep_first_occurrences ((λ c, lower [c]) <$> s))).
Proof.
  intros Hinit Hv. apply init_Ok in Hinit as (self & Hval & Hexp).
  apply validate_inv in Hval as (nh & _ & _ & Hn & _ & ->).
  assert (nh = keep_first_occurrences ((λ c, lower [c]) <$> s)) as ->.
  { assert (header_list (VList (VStr <$> ((λ c, [c]) <$> s)))
              ((λ c, [c]) <$> s)) as Hl by by left.
    unfold normalize_headers in Hn.
    rewrite (getattr_loaded _ _ _ Hv) in Hn. unfold iterate in Hn.
    rewrite bind_unit_l in Hn.
    assert ((λ c, VStr [c]) <$> s = VStr <$> ((λ c, [c]) <$> s)) as Hs
      by by rewrite <-list_fmap_compose.
    rewrite Hs, comprehension_names, bind_unit_l, unique_keep_first in Hn.
    injection Hn as <-. by rewrite <-list_fmap_compose. }
  apply check_export_Ok in Hexp as [-> | [p ->]]; by vm_compute.
Qed.

(** X3. A threshold that is no number stops the construction with a
    TypeError: at line 150 for [size_threshold], at line 151 for
    [content_threshold] once the size threshold has passed.  A boolean
    counts as a number and passes. *)
Theorem threshold_must_be_a_number kwargs v :
  dom kwargs ⊆ dom default_conf →
  (∀ z, v ≠ VInt z) → (∀ b, v ≠ VBool b) →
  ((kwargs ∪ default_conf) !! "size_threshold" = Some v →
   init kwargs = Raise (TypeError 150))
  ∧ (∀ s, (kwargs ∪ default_conf) !! "size_threshold" = Some s →
          (s = VInt (-1) ∨ ∃ b, s = VBool b) →
          (kwargs ∪ default_conf) !! "content_threshold" = Some v →
          init kwargs = Raise (TypeError 151)).
Proof.
  intros Hsub Hz Hb.
  assert (∀ line, ge_minus_one line v = Raise (TypeError line)) as Hv.
  { intros line.
    destruct v as [|b|z| | | |]; try done;
      [by destruct (Hb b)|by destruct (Hz z)]. }
  split.
  - intros Hs. rewrite init_eq by by apply no_self_recognized.
    unfold validate.
    rewrite (load_conf_Ok _ Hsub), bind_unit_l. unfold check_thresholds.
    by rewrite (getattr_loaded _ _ _ Hs), Hv, !bind_raise_l.
  - intros s Hs Hcase Hc. rewrite init_eq by by apply no_self_recognized.
    unfold validate.
    rewrite (load_conf_Ok _ Hsub), bind_unit_l. unfold check_thresholds.
    rewrite (getattr_loaded _ _ _ Hs), (getattr_loaded _ _ _ Hc), Hv.
    by destruct Hcase as [-> | [b ->]].
Qed.

(** X4. Normalization never lengthens the header list, and keeps its
    length exactly when the lower-cased names are pairwise distinct. *)
Theorem hash_headers_length kwargs cfg v names :
  init kwargs = Ok cfg →
  (kwargs ∪ default_conf) !! "hash_headers" = Some v →
  header_list v names →
  ∃ hash_headers,
    getattr cfg "hash_headers" = Val (VTuple (VStr <$> hash_headers))
    ∧ length hash_headers ≤ length names
    ∧ (length hash_headers = length names ↔ NoDup (lower <$> names)).
Proof.
  intros Hinit Hv Hnames.
  pose proof (hash_headers_normalized_aux kwargs cfg v names Hinit Hv Hnames)
    as Hget.
  exists (keep_first_occurrences (lower <$> names)). split; [done|].
  rewrite <-(length_fmap lower names). split.
  - apply keep_first_length.
  - apply keep_first_length_NoDup.
Qed.

(** X5. The file system is consulted only for a destination that is set,
    and only after the validation has passed: otherwise the result of the
    construction does not depend on it. *)
Theorem file_system_only_for_export kwargs resolve' exists_' :
  (∀ self, validate lower kwargs = Ok self →
           truthy (__getattr__ self "export") = false) →
  __init__ lower resolve' exists_' kwargs = init kwargs.
Proof.
  intros H. unfold __init__.
  destruct (bind_call kwargs) as [[]|e0]; [|done]. rewrite !bind_unit_l.
  destruct (validate lower kwargs) as [self|e] eqn:E; [|done].
  rewrite !bind_unit_l. unfold check_export. by rewrite (H self).
Qed.

(** X6. When [FileExistsError] is raised, the rest of the configuration
    was valid, the path it carries is the resolved destination, that path
    exists and [export_append] is not [True]. *)
Theorem file_exists_error_sound kwargs p :
  init kwargs = Raise (FileExistsError p) →
  ∃ self v append,
    validate lower kwargs = Ok self
    ∧ (kwargs ∪ default_conf) !! "export" = Some v
    ∧ truthy v = true
    ∧ Path_resolve resolve v = Ok p
    ∧ exists_ p = Some true
    ∧ (kwargs ∪ default_conf) !! "export_append" = Some append
    ∧ append ≠ VBool true.
Proof.
  intros Hinit. unfold __init__ in Hinit.
  apply bind_Raise in Hinit as [Hb | ([] & _ & Hinit)].
  { by apply bind_call_Raise in Hb as [_ ?]. }
  apply bind_Raise in Hinit as [Hval | (self & Hval & Hexp)].
  { unfold validate in Hval.
    apply bind_Raise in Hval as [H | (self & _ & H)].
    { by apply load_conf_Raise_inv in H as [_ ?]. }
    apply bind_Raise in H as [H | (_ & _ & H)].
    { by apply check_thresholds_line in H as [? | [? | [? | ?]]]. }
    apply bind_Raise in H as [H | (nh & _ & H)].
    { by apply normalize_headers_line in H as [? | ?]. }
    apply bind_Raise in H as [H | (_ & _ & H)]; [|done].
    by apply check_header_chars_line in H as [? | [? | ?]]. }
  destruct (validate_inv _ _ Hval) as (nh & Hsub & _ & _ & _ & ->).
  unfold check_export in Hexp.
  destruct (truthy _) eqn:Et; [|done].
  apply bind_Raise in Hexp as [H | (p' & Hres & H)].
  { unfold Path_resolve in H.
    destruct (__getattr__ _ "export"); try done; by destruct (resolve _). }
  apply bind_Raise in H as [H | (b & He & H)].
  { unfold Path_exists in H. by destruct (exists_ p'). }
  destruct b; simpl in H; [|done].
  destruct (is_True _) eqn:Ea; simpl in H; [done|]. injection H as ->.
  unfold __getattr__ in Et, Hres, Ea. simpl in Et, Hres, Ea.
  destruct ((kwargs ∪ default_conf) !! "export") as [v|] eqn:Ev; [|done].
  destruct ((kwargs ∪ default_conf) !! "export_append") as [append|] eqn:Eap.
  2:{ assert ("export_append"%string ∈ dom (kwargs ∪ default_conf)) as Hin.
      { rewrite dom_union_L. apply elem_of_union_r, elem_of_default_conf.
        by_membership. }
      apply elem_of_dom in Hin as [? Hin]. congruence. }
  exists (validated kwargs nh), v, append. split_and!; try done.
  - unfold Path_exists in He. destruct (exists_ p) as [[]|]; by simplify_eq.
  - intros ->. done.
Qed.

(** X7. A destination that is set but is neither a string nor a path
    stops the construction with the TypeError of line 168, once the
    validation has passed. *)
Theorem export_must_be_a_path kwargs self v :
  validate lower kwargs = Ok self →
  (kwargs ∪ default_conf) !! "export" = Some v →
  truthy v = true →
  (∀ s, v ≠ VStr s) → (∀ s, v ≠ VPath s) →
  init kwargs = Raise (TypeError 168).
Proof.
  intros Hval Hv Ht Hs Hp. rewrite init_eq by by eapply no_self_validated.
  rewrite Hval, bind_unit_l.
  apply validate_inv in Hval as (nh & _ & _ & _ & _ & ->).
  unfold check_export.
  rewrite (getattr_conf _ "export" v) by done.
  rewrite Ht. destruct v; try done; [by destruct (Hs s)|by destruct (Hp p)].
Qed.

(** X8. A header entry that is [None], a boolean, an integer, a tuple, a
    list or a path (the values of the universe without a [lower] method)
    stops the construction with the AttributeError of line 154, once the
    thresholds have passed. *)
Theorem header_names_must_be_strings kwargs v items :
  dom kwargs ⊆ dom default_conf →
  check_thresholds {| conf := kwargs ∪ default_conf; attrs := ∅ |} = Ok () →
  (kwargs ∪ default_conf) !! "hash_headers" = Some v →
  v = VList items ∨ v = VTuple items →
  (∃ item, item ∈ items ∧ has_no_lower item = true) →
  init kwargs = Raise (AttributeError 154).
Proof.
  intros Hsub Ht Hv Hitems (item & Hin & Hns).
  rewrite init_eq by by apply no_self_recognized. unfold validate.
  rewrite (load_conf_Ok _ Hsub), bind_unit_l, Ht, bind_unit_l.
  unfold normalize_headers. rewrite (getattr_loaded _ _ _ Hv).
  assert (iterate 154 v = Ok items) as -> by by destruct Hitems as [-> | ->].
  rewrite bind_unit_l.
  assert (comprehension lower items = Raise (AttributeError 154)) as ->;
    [|done].
  clear Hitems Hv.
  induction items as [|h items IH]; [by apply elem_of_nil in Hin|].
  cbn [comprehension].
  destruct h as [| | |s| | |]; try done.
  apply elem_of_cons in Hin as [-> | Hin]; [done|].
  cbn [call_lower]. by rewrite bind_unit_l, IH.
Qed.

Lemma init_Ok_iff kwargs v names :
  (kwargs ∪ default_conf) !! "hash_headers" = Some v →
  header_list v names →
  (∃ cfg, init kwargs = Ok cfg) ↔
  dom kwargs ⊆ dom default_conf
  ∧ check_thresholds {| conf := kwargs ∪ default_conf; attrs := ∅ |} = Ok ()
  ∧ Forall (λ h, lower h ≠ [] ∧ printable (lower h)) names
  ∧ ∃ export append,
      (kwargs ∪ default_conf) !! "export" = Some export
      ∧ (kwargs ∪ default_conf) !! "export_append" = Some append
      ∧ (truthy export = false
         ∨ ∃ p b, Path_resolve resolve export = Ok p
                  ∧ exists_ p = Some b
                  ∧ (b = false ∨ append = VBool true)).
Proof.
  intros Hv Hnames.
  assert (∀ self, validate lower kwargs = Ok self ↔
            dom kwargs ⊆ dom default_conf
            ∧ check_thresholds {| conf := kwargs ∪ default_conf; attrs := ∅ |}
              = Ok ()
            ∧ Forall (λ h, lower h ≠ [] ∧ printable (lower h)) names
            ∧ self = validated kwargs
                       (keep_first_occurrences (lower <$> names))) as Hval.
  { intros self. split.
    - intros H. apply validate_inv in H as (nh & Hsub & Ht & Hn & Hc & ->).
      rewrite (normalize_headers_names _ names) in Hn
        by by rewrite (getattr_loaded _ _ _ Hv).
      injection Hn as <-.
      rewrite check_header_chars_Ok, keep_first_Forall, Forall_fmap in Hc.
      done.
    - intros (Hsub & Ht & Hc & ->). apply validate_Ok.
      eexists _, _. split_and!; [by apply load_conf_Ok|done| | |done].
      + apply normalize_headers_names. by rewrite (getattr_loaded _ _ _ Hv).
      + by rewrite check_header_chars_Ok, keep_first_Forall, Forall_fmap. }
  assert (∀ nh name, __getattr__ (validated kwargs nh) name
                     = default VNone ((kwargs ∪ default_conf) !! name))
    as Hget.
  { intros nh name. unfold __getattr__. simpl. by destruct (_ !! name). }
  assert (dom kwargs ⊆ dom default_conf →
          ∃ export append,
            (kwargs ∪ default_conf) !! "export" = Some export
            ∧ (kwargs ∪ default_conf) !! "export_append" = Some append)
    as Hkeys.
  { intros Hsub.
    assert (∀ name, name ∈ option_names →
                    is_Some ((kwargs ∪ default_conf) !! name)) as Hin.
    { intros name Hn. apply elem_of_dom. rewrite dom_union_L.
      by apply elem_of_union_r, elem_of_default_conf. }
    destruct (Hin "export"%string) as [export He]; [by_membership|].
    destruct (Hin "export_append"%string) as [append Ha]; [by_membership|].
    eauto. }
  split.
  - intros (cfg & (self & Hs & Hexp)%init_Ok).
    apply Hval in Hs as (Hsub & Ht & Hc & ->).
    split_and!; [done..|].
    destruct (Hkeys Hsub) as (export & append & He & Ha).
    exists export, append. split_and!; [done..|].
    unfold check_export in Hexp. rewrite !Hget, He in Hexp. simpl in Hexp.
    destruct (truthy export); [|by left]. right.
    apply bind_Ok in Hexp as (p & Hp & Hexp).
    apply bind_Ok in Hexp as (b & Hb & Hexp).
    unfold Path_exists in Hb. destruct (exists_ p) as [b'|] eqn:Eb; [|done].
    injection Hb as ->. exists p, b. split_and!; [done..|].
    unfold __getattr__ in Hexp. simpl in Hexp. rewrite Ha in Hexp.
    destruct b; [|by left]. right. simpl in Hexp.
    destruct (is_True append) eqn:Ea; [|done]. by apply is_True_spec.
  - intros (Hsub & Ht & Hc & export & append & He & Ha & Hcase).
    assert (validate lower kwargs
            = Ok (validated kwargs (keep_first_occurrences (lower <$> names))))
      as Hs by by apply Hval.
    rewrite init_eq by by apply no_self_recognized.
    rewrite Hs, bind_unit_l. unfold check_export.
    rewrite !Hget, He. simpl.
    destruct (truthy export); [|eauto].
    destruct Hcase as [? | (p & b & -> & Hb & Hcase)]; [done|].
    rewrite bind_unit_l. unfold Path_exists. rewrite Hb, bind_unit_l.
    unfold __getattr__. simpl. rewrite Ha.
    destruct Hcase as [-> | ->]; [eauto|]. simpl. rewrite andb_false_r. eauto.
Qed.

(** X9. The construction succeeds exactly when every check passes:
    recognized options, thresholds, header names that are non-empty and
    printable once lower-cased, and a destination that is unset, or is
    new, or is appended to. *)
Theorem construction_succeeds_iff kwargs v names :
  (kwargs ∪ default_conf) !! "hash_headers" = Some v →
  header_list v names →
  (∃ cfg, init kwargs = Ok cfg) ↔
  dom kwargs ⊆ dom default_conf
  ∧ check_thresholds {| conf := kwargs ∪ default_conf; attrs := ∅ |} = Ok ()
  ∧ Forall (λ h, lower h ≠ [] ∧ printable (lower h)) names
  ∧ ∃ export append,
      (kwargs ∪ default_conf) !! "export" = Some export
      ∧ (kwargs ∪ default_conf) !! "export_append" = Some append
      ∧ (truthy export = false
         ∨ ∃ p b, Path_resolve resolve export = Ok p
                  ∧ exists_ p = Some b
                  ∧ (b = false ∨ append = VBool true)).
Proof. apply init_Ok_iff. Qed.

Lemma check_thresholds_ext self self' :
  conf self !! "size_threshold" = conf self' !! "size_threshold" →
  conf self !! "content_threshold" = conf self' !! "content_threshold" →
  check_thresholds self = check_thresholds self'.
Proof. unfold check_thresholds, __getattr__. by intros -> ->. Qed.

Lemma lookup_loaded_insert_ne (kwargs : gmap string pyval) name name' v :
  name ≠ name' →
  (<[name := v]> kwargs ∪ default_conf) !! name'
  = (kwargs ∪ default_conf) !! name'.
Proof. intros Hne. by rewrite <-insert_union_l, lookup_insert_ne. Qed.

(** X10. Normalizing twice changes nothing: constructing again with the
    [hash_headers] of a constructed instance (all else equal) succeeds and
    yields the same [hash_headers], provided lower-casing a lower-cased
    name leaves it as it is. *)
Theorem normalization_idempotent kwargs cfg v names :
  init kwargs = Ok cfg →
  (kwargs ∪ default_conf) !! "hash_headers" = Some v →
  header_list v names →
  (∀ h, h ∈ names → lower (lower h) = lower h) →
  ∃ cfg',
    init (<[ "hash_headers"%string :=
               VTuple (VStr <$> keep_first_occurrences (lower <$> names)) ]>
            kwargs) = Ok cfg'
    ∧ getattr cfg' "hash_headers" = getattr cfg "hash_headers".
Proof.
  intros Hinit Hv Hnames Hidem.
  set (hh := keep_first_occurrences (lower <$> names)).
  set (kwargs' := <[ "hash_headers"%string := VTuple (VStr <$> hh) ]> kwargs).
  assert (∀ x, x ∈ hh → lower x = x) as Hfix.
  { intros x (h & -> & Hh)%elem_of_keep_first%list_elem_of_fmap.
    by apply Hidem. }
  assert (lower <$> hh = hh) as Hmap.
  { clear -Hfix. induction hh as [|x l IH]; [done|].
    rewrite fmap_cons, (Hfix x) by by left. f_equal. apply IH.
    intros y Hy. apply Hfix. by right. }
  assert ((kwargs' ∪ default_conf) !! "hash_headers"
          = Some (VTuple (VStr <$> hh))) as Hv'.
  { apply lookup_union_Some_l, lookup_insert_eq. }
  assert (header_list (VTuple (VStr <$> hh)) hh) as Hnames' by by right.
  destruct (proj1 (init_Ok_iff kwargs v names Hv Hnames))
    as (Hsub & Ht & Hc & export & append & He & Ha & Hcase); [eauto|].
  destruct (proj2 (init_Ok_iff kwargs' _ hh Hv' Hnames'))
    as [cfg' Hinit'].
  { split_and!.
    - unfold kwargs'. rewrite dom_insert_L. apply union_least; [|done].
      apply singleton_subseteq_l, elem_of_default_conf. by_membership.
    - rewrite <-Ht. apply check_thresholds_ext; simpl;
        by apply lookup_loaded_insert_ne.
    - apply Forall_forall. intros x Hx. rewrite (Hfix x Hx).
      apply elem_of_keep_first, list_elem_of_fmap in Hx as (h & -> & Hh).
      rewrite Forall_forall in Hc. by apply Hc.
    - exists export, append. unfold kwargs'. split_and!; [| |done].
      + by rewrite lookup_loaded_insert_ne.
      + by rewrite lookup_loaded_insert_ne. }
  exists cfg'. split; [done|].
  rewrite (hash_headers_normalized_aux _ _ _ _ Hinit' Hv' Hnames').
  rewrite (hash_headers_normalized_aux _ _ _ _ Hinit Hv Hnames).
  rewrite Hmap. unfold hh. by rewrite keep_first_idemp.
Qed.
End Config_properties.

(** ** The properties on concrete inputs *)

Ltac by_computation := apply (bool_decide_unpack _); by vm_compute.

Lemma ascii_lower_agrees : lower_agrees_on_ascii ascii_lower.
Proof. by intros s _. Defined.

Lemma unrecognized_options_rejected_witness :
  __init__ ascii_lower resolve_id exists_old_mbox kwargs_self
  = Raise (TypeError 137)
  ∧ (∃ unrecognized_options,
       __init__ ascii_lower resolve_id exists_old_mbox kwargs_bogus
       = Raise (ValueError_unrecognized unrecognized_options)
       ∧ "bogus"%string ∈ unrecognized_options)
  ∧ load_conf kwargs_dry_run
    = Ok {| conf := kwargs_dry_run ∪ default_conf; attrs := ∅ |}.
Proof.
  split_and!.
  - apply (proj1 (unrecognized_options_rejected
                    ascii_lower resolve_id exists_old_mbox kwargs_self)).
    by_computation.
  - destruct (proj1 (proj2 (unrecognized_options_rejected
                       ascii_lower resolve_id exists_old_mbox kwargs_bogus)))
      as (opts & H & _ & Hopts & _).
    + by_computation.
    + exists "bogus"%string. split; by_computation.
    + exists opts. split; [exact H|]. apply Hopts. split; by_computation.
  - apply (proj2 (proj2 (unrecognized_options_rejected
                    ascii_lower resolve_id exists_old_mbox kwargs_dry_run))).
    by_computation.
Defined.

(** C1 as stated fails on a keyword argument named [self]: it is not a
    recognized option, yet what is raised is the TypeError of the call,
    not the ValueError of line 144. *)
Lemma unrecognized_options_rejected_counterexample :
  (∃ name, name ∈ dom kwargs_self ∧ name ∉ option_names)
  ∧ ¬ ∃ unrecognized_options,
        __init__ ascii_lower resolve_id exists_old_mbox kwargs_self
        = Raise (ValueError_unrecognized unrecognized_options).
Proof.
  split.
  - exists "self"%string. split; by_computation.
  - intros [opts H]. vm_compute in H. discriminate H.
Qed.

Lemma thresholds_at_least_minus_one_witness :
  (∃ e, __init__ ascii_lower resolve_id exists_old_mbox kwargs_small_threshold
        = Raise e ∧ exc_line e ≤ 151)
  ∧ check_thresholds
      {| conf := kwargs_no_threshold ∪ default_conf; attrs := ∅ |} = Ok ().
Proof.
  split.
  - destruct (proj1 (thresholds_at_least_minus_one
                       ascii_lower resolve_id exists_old_mbox
                       kwargs_small_threshold) (-2)%Z)
      as (e & H & Hl & _).
    + left. by vm_compute.
    + lia.
    + exists e. exact (conj H Hl).
  - apply (proj2 (thresholds_at_least_minus_one
                    ascii_lower resolve_id exists_old_mbox
                    kwargs_no_threshold) (-1)%Z (-1)%Z).
    + by_computation.
    + by vm_compute.
    + by vm_compute.
    + lia.
    + lia.
Defined.

Lemma hash_headers_normalized_witness :
  ∃ hash_headers,
    getattr (validated kwargs_mixed_case (str_of <$> ["to"; "subject"]%string))
      "hash_headers"
    = Val (VTuple (VStr <$> hash_headers))
    ∧ hash_headers = keep_first_occurrences (ascii_lower <$> mixed_case_names).
Proof.
  destruct (hash_headers_normalized ascii_lower resolve_id exists_old_mbox
              kwargs_mixed_case
              (validated kwargs_mixed_case (str_of <$> ["to"; "subject"]%string))
              (VList (VStr <$> mixed_case_names)) mixed_case_names)
    as (hh & H1 & H2 & _).
  - by vm_compute.
  - by vm_compute.
  - by left.
  - exists hh. exact (conj H1 H2).
Defined.

Lemma header_names_printable_witness :
  ((∃ self, validate ascii_lower kwargs_mixed_case = Ok self) ↔
   Forall (λ h, printable (ascii_lower h)) mixed_case_names)
  ∧ ∃ e, __init__ ascii_lower resolve_id exists_old_mbox kwargs_space = Raise e
         ∧ exc_line e ≤ 162.
Proof.
  split.
  - destruct (header_names_printable ascii_lower resolve_id exists_old_mbox
                kwargs_mixed_case (VList (VStr <$> mixed_case_names))
                mixed_case_names) as [H _].
    + by vm_compute.
    + by left.
    + apply H; [by_computation|by vm_compute|by_computation].
  - destruct (header_names_printable ascii_lower resolve_id exists_old_mbox
                kwargs_space (VList (VStr <$> [str_of "Reply To"]))
                [str_of "Reply To"]) as [_ H].
    + by vm_compute.
    + by left.
    + apply H. by_computation.
Defined.

(** C4 as stated fails on an empty header name: none of its characters is
    out of range, yet the construction does not get past the check. *)
Lemma header_names_printable_counterexample :
  ¬ ((∃ self, validate ascii_lower kwargs_only_empty_name = Ok self) ↔
     Forall (λ h, printable (ascii_lower h)) [[]]).
Proof.
  intros [_ H]. destruct H as [self H].
  - by_computation.
  - vm_compute in H. discriminate H.
Qed.

Lemma empty_header_name_rejected_witness :
  (∃ e, __init__ ascii_lower resolve_id exists_old_mbox kwargs_empty_name
        = Raise e)
  ∧ __init__ ascii_lower resolve_id exists_old_mbox kwargs_empty_name
    = Raise ValueError_empty_max.
Proof.
  destruct (empty_header_name_rejected ascii_lower resolve_id exists_old_mbox
              kwargs_empty_name (VList (VStr <$> [str_of "To"; []]))
              (VStr <$> [str_of "To"; []]))
    as (H1 & _ & H2).
  - reflexivity.
  - by vm_compute.
  - by left.
  - apply elem_of_cons. right. apply elem_of_cons. by left.
  - split; [exact H1|].
    apply (H2 [str_of "To"] []).
    + by_computation.
    + by vm_compute.
    + reflexivity.
    + by_computation.
Defined.

Lemma export_destination_must_not_exist_witness :
  __init__ ascii_lower resolve_id exists_old_mbox kwargs_export_old
  = Raise (FileExistsError (str_of "/old.mbox"))
  ∧ __init__ ascii_lower resolve_id exists_old_mbox kwargs_export_new
    = Ok (setattr (validated kwargs_export_new default_hash_headers)
            "export" (VPath (str_of "/new.mbox")))
  ∧ __init__ ascii_lower resolve_id exists_old_mbox kwargs_export_append
    = Ok (setattr (validated kwargs_export_append default_hash_headers)
            "export" (VPath (str_of "/old.mbox"))).
Proof.
  split_and!.
  - destruct (export_destination_must_not_exist
                ascii_lower resolve_id exists_old_mbox kwargs_export_old
                (VStr (str_of "/old.mbox")) (str_of "/old.mbox")
                (str_of "/old.mbox") (VBool false)) as [H _].
    + by vm_compute.
    + left. by split.
    + reflexivity.
    + by vm_compute.
    + apply H with (self := validated kwargs_export_old default_hash_headers);
        [by vm_compute|done|by vm_compute].
  - destruct (export_destination_must_not_exist
                ascii_lower resolve_id exists_old_mbox kwargs_export_new
                (VStr (str_of "/new.mbox")) (str_of "/new.mbox")
                (str_of "/new.mbox") (VBool false)) as [_ H].
    + by vm_compute.
    + left. by split.
    + reflexivity.
    + by vm_compute.
    + apply H; [left; by vm_compute|by vm_compute].
  - destruct (export_destination_must_not_exist
                ascii_lower resolve_id exists_old_mbox kwargs_export_append
                (VStr (str_of "/old.mbox")) (str_of "/old.mbox")
                (str_of "/old.mbox") (VBool true)) as [_ H].
    + by vm_compute.
    + left. by split.
    + reflexivity.
    + by vm_compute.
    + apply H; [right; split; [done|by exists true]|by vm_compute].
Defined.

Lemma defaults_and_supplied_options_witness :
  (conf (validated kwargs_dry_run default_hash_headers) !! "dry_run"
   = Some (VBool true)
   ∧ conf (validated kwargs_dry_run default_hash_headers) !! "size_threshold"
     = default_conf !! "size_threshold"
   ∧ getattr (validated kwargs_dry_run default_hash_headers) "dry_run"
     = Val (VBool true))
  ∧ ∃ cfg, __init__ ascii_lower resolve_id exists_old_mbox ∅ = Ok cfg
           ∧ getattr cfg "size_threshold" = Val (VInt 512)
           ∧ getattr cfg "hash_headers"
             = Val (VTuple (VStr <$> default_hash_headers)).
Proof.
  split.
  - destruct (proj1 (defaults_and_supplied_options
                       ascii_lower resolve_id exists_old_mbox)
                kwargs_dry_run (validated kwargs_dry_run default_hash_headers))
      as (_ & H1 & H2 & H3).
    + by vm_compute.
    + split_and!.
      * apply H1. by vm_compute.
      * apply H2. by vm_compute.
      * apply H3; [by vm_compute|done|done].
  - destruct (proj2 (defaults_and_supplied_options
                       ascii_lower resolve_id exists_old_mbox)
                ascii_lower_agrees)
      as (cfg & H & Hs & _ & _ & _ & Hh & _).
    exists cfg. exact (conj H (conj Hs Hh)).
Defined.

Lemma attribute_access_falls_back_to_conf_witness :
  getattr (setattr (validated kwargs_export_new default_hash_headers)
             "export" (VPath (str_of "/new.mbox"))) "verbose" = Val VNone
  ∧ getattr (setattr (validated kwargs_export_new default_hash_headers)
               "export" (VPath (str_of "/new.mbox"))) "size_threshold"
    = Val (VInt 512).
Proof.
  destruct (attribute_access_falls_back_to_conf
              ascii_lower resolve_id exists_old_mbox kwargs_export_new
              (setattr (validated kwargs_export_new default_hash_headers)
                 "export" (VPath (str_of "/new.mbox"))))
    as (H1 & H2 & _).
  - by vm_compute.
  - split.
    + apply H1; [done|by vm_compute|by_computation|by vm_compute].
    + apply H2; [by vm_compute|done|done].
Defined.

(** C9 as stated fails on [hash_headers]: [conf] keeps the names as they
    were given, attribute access yields the normalized tuple. *)
Lemma attribute_access_counterexample :
  ¬ (∀ cfg name v,
       __init__ ascii_lower resolve_id exists_old_mbox ∅ = Ok cfg →
       conf cfg !! name = Some v →
       getattr cfg name = Val v).
Proof.
  intros H.
  specialize (H (validated ∅ default_hash_headers) "hash_headers"%string
                (VTuple (VStr <$> HASH_HEADERS))).
  assert (getattr (validated ∅ default_hash_headers) "hash_headers"
          = Val (VTuple (VStr <$> HASH_HEADERS))) as Hget.
  { apply H; by vm_compute. }
  vm_compute in Hget. discriminate Hget.
Qed.

Lemma ascii_lower_idemp s : ascii_lower (ascii_lower s) = ascii_lower s.
Proof.
  unfold ascii_lower. rewrite <-list_fmap_compose. apply list_fmap_ext.
  intros _ c _. simpl. repeat case_bool_decide; lia.
Defined.

Lemma conf_keys_are_the_options_witness :
  is_Some (conf (validated kwargs_dry_run default_hash_headers) !! "regexp")
  ∧ ¬ is_Some (conf (validated kwargs_dry_run default_hash_headers)
                 !! "verbose").
Proof.
  destruct (conf_keys_are_the_options ascii_lower resolve_id exists_old_mbox
              kwargs_dry_run (validated kwargs_dry_run default_hash_headers))
    as [_ H].
  - by vm_compute.
  - split.
    + apply H. by_membership.
    + intros Hs. apply H in Hs. revert Hs. by_membership.
Defined.

Lemma hash_headers_string_is_split_witness :
  getattr (validated kwargs_string_header [str_of "t"; str_of "o"])
    "hash_headers"
  = Val (VTuple (VStr <$> keep_first_occurrences
                            ((λ c, ascii_lower [c]) <$> str_of "To"))).
Proof.
  apply (hash_headers_string_is_split ascii_lower resolve_id exists_old_mbox
           kwargs_string_header).
  - by vm_compute.
  - by vm_compute.
Defined.

Lemma threshold_must_be_a_number_witness :
  __init__ ascii_lower resolve_id exists_old_mbox kwargs_none_threshold
  = Raise (TypeError 150).
Proof.
  destruct (threshold_must_be_a_number
              ascii_lower resolve_id exists_old_mbox
              kwargs_none_threshold VNone) as [H _].
  - by_membership.
  - done.
  - done.
  - apply H. by vm_compute.
Defined.

Lemma hash_headers_length_witness :
  ∃ hash_headers,
    getattr (validated kwargs_mixed_case (str_of <$> ["to"; "subject"]%string))
      "hash_headers" = Val (VTuple (VStr <$> hash_headers))
    ∧ length hash_headers ≤ length mixed_case_names.
Proof.
  destruct (hash_headers_length ascii_lower resolve_id exists_old_mbox
              kwargs_mixed_case
              (validated kwargs_mixed_case (str_of <$> ["to"; "subject"]%string))
              (VList (VStr <$> mixed_case_names)) mixed_case_names)
    as (hh & H1 & H2 & _).
  - by vm_compute.
  - by vm_compute.
  - by left.
  - exists hh. exact (conj H1 H2).
Defined.

Lemma file_system_only_for_export_witness :
  __init__ ascii_lower resolve_fails exists_fails kwargs_dry_run
  = __init__ ascii_lower resolve_id exists_old_mbox kwargs_dry_run.
Proof.
  apply (file_system_only_for_export ascii_lower resolve_id exists_old_mbox
           kwargs_dry_run resolve_fails exists_fails).
  intros self H. vm_compute in H. injection H as <-. by vm_compute.
Defined.

Lemma file_exists_error_sound_witness :
  ∃ self v append,
    validate ascii_lower kwargs_export_old = Ok self
    ∧ (kwargs_export_old ∪ default_conf) !! "export" = Some v
    ∧ truthy v = true
    ∧ Path_resolve resolve_id v = Ok (str_of "/old.mbox")
    ∧ exists_old_mbox (str_of "/old.mbox") = Some true
    ∧ (kwargs_export_old ∪ default_conf) !! "export_append" = Some append
    ∧ append ≠ VBool true.
Proof.
  apply (file_exists_error_sound ascii_lower resolve_id exists_old_mbox
           kwargs_export_old (str_of "/old.mbox")).
  by vm_compute.
Defined.

Lemma export_must_be_a_path_witness :
  __init__ ascii_lower resolve_id exists_old_mbox kwargs_export_true
  = Raise (TypeError 168).
Proof.
  apply (export_must_be_a_path ascii_lower resolve_id exists_old_mbox
           kwargs_export_true
           (validated kwargs_export_true default_hash_headers) (VBool true)).
  - by vm_compute.
  - by vm_compute.
  - reflexivity.
  - done.
  - done.
Defined.

Lemma header_names_must_be_strings_witness :
  __init__ ascii_lower resolve_id exists_old_mbox kwargs_int_header
  = Raise (AttributeError 154).
Proof.
  apply (header_names_must_be_strings ascii_lower resolve_id exists_old_mbox
           kwargs_int_header (VList [VStr (str_of "To"); VInt 7])
           [VStr (str_of "To"); VInt 7]).
  - by_membership.
  - by vm_compute.
  - by vm_compute.
  - by left.
  - exists (VInt 7). split; [|reflexivity].
    apply elem_of_cons. right. apply elem_of_cons. by left.
Defined.

Lemma construction_succeeds_iff_witness :
  ∃ cfg, __init__ ascii_lower resolve_id exists_old_mbox kwargs_mixed_case
         = Ok cfg.
Proof.
  destruct (construction_succeeds_iff
              ascii_lower resolve_id exists_old_mbox kwargs_mixed_case
              (VList (VStr <$> mixed_case_names)) mixed_case_names)
    as [_ H].
  - by vm_compute.
  - by left.
  - apply H. split_and!.
    + by_membership.
    + by vm_compute.
    + by_membership.
    + exists VNone, (VBool false). split_and!; [by vm_compute..|by left].
Defined.

Lemma normalization_idempotent_witness :
  ∃ cfg',
    __init__ ascii_lower resolve_id exists_old_mbox
      (<[ "hash_headers"%string :=
            VTuple (VStr <$> keep_first_occurrences
                               (ascii_lower <$> mixed_case_names)) ]>
         kwargs_mixed_case) = Ok cfg'
    ∧ getattr cfg' "hash_headers"
      = getattr (validated kwargs_mixed_case
                   (str_of <$> ["to"; "subject"]%string)) "hash_headers".
Proof.
  apply (normalization_idempotent ascii_lower resolve_id exists_old_mbox
           kwargs_mixed_case
           (validated kwargs_mixed_case (str_of <$> ["to"; "subject"]%string))
           (VList (VStr <$> mixed_case_names)) mixed_case_names).
  - by vm_compute.
  - by vm_compute.
  - by left.
  - intros h _. apply ascii_lower_idemp.
Defined.

(** * The engine *)

Section Engine_properties.

Context (lower : pystr → pystr).
Context (digest : list (pystr * pystr) → list Z).
Context (diff_size : list Z → list Z → Z).

(** ** The minimum of headers *)

(** The headers counted as found are the configured names that occur in
    the canonical sequence. *)
Lemma elem_of_canonical_headers hash_headers m name value :
  (name, value) ∈ canonical_headers lower hash_headers m ↔
  name ∈ hash_headers ∧ value ∈ get_all lower m name.
Proof.
  unfold canonical_headers. rewrite list_elem_of_bind. split.
  - intros (n & Hin & Hn). apply list_elem_of_fmap in Hin as (x & [= -> ->] & Hx).
    done.
  - intros [Hn Hv]. exists name. split; [|done]. by apply list_elem_of_fmap_2.
Qed.

Lemma elem_of_found_headers hash_headers m name :
  name ∈ found_headers lower hash_headers m ↔
  ∃ value, (name, value) ∈ canonical_headers lower hash_headers m.
Proof.
  unfold found_headers. rewrite list_elem_of_filter. split.
  - intros [Hne Hin]. destruct (get_all lower m name) as [|value l] eqn:E;
      [done|].
    exists value. apply elem_of_canonical_headers. split; [done|].
    rewrite E. by left.
  - intros (value & [Hin Hv]%elem_of_canonical_headers). split; [|done].
    intros E. rewrite E in Hv. by apply elem_of_nil in Hv.
Qed.

Lemma found_count_le hash_headers m :
  found_count lower hash_headers m ≤ length hash_headers.
Proof. apply length_filter. Qed.

(** C7. Fingerprinting yields [TooFewHeaders] exactly when the number of
    configured headers found in the message is strictly below the
    minimum: one header short of the minimum always yields
    [TooFewHeaders], exactly the minimum always yields a fingerprint. *)
Theorem too_few_headers_boundary hash_headers minimum m :
  ((∃ found, fingerprint lower digest hash_headers minimum m
             = TooFewHeaders found)
   ↔ (Z.of_nat (found_count lower hash_headers m) < minimum)%Z)
  ∧ (Z.of_nat (found_count lower hash_headers m) = (minimum - 1)%Z →
     fingerprint lower digest hash_headers minimum m
     = TooFewHeaders (found_count lower hash_headers m))
  ∧ (Z.of_nat (found_count lower hash_headers m) = minimum →
     fingerprint lower digest hash_headers minimum m
     = Fingerprint (digest (canonical_headers lower hash_headers m))).
Proof.
  unfold fingerprint. split_and!.
  - case_decide; split; try done; [eauto|]. by intros [found [=]].
  - intros H. rewrite decide_True by lia. done.
  - intros H. rewrite decide_False by lia. done.
Qed.

(** ** The thresholds of the fuzzy validator *)

Lemma within_spec threshold measured :
  within threshold measured = true ↔
  threshold = (-1)%Z ∨ (measured ≤ threshold)%Z.
Proof.
  unfold within. rewrite orb_true_iff, !bool_decide_eq_true. done.
Qed.

Lemma validate_pair_Accepted size_threshold content_threshold a b :
  validate_pair diff_size size_threshold content_threshold a b = Accepted ↔
  within size_threshold (size_delta a b) = true
  ∧ within content_threshold (content_delta diff_size a b) = true.
Proof.
  unfold validate_pair.
  destruct (within size_threshold _); simpl; [|split; [done|by intros []]].
  destruct (within content_threshold _); simpl; split; (done || by intros []).
Qed.

(** C8. For a threshold that is not negative, a pair whose size delta
    equals the size threshold is accepted on the size criterion and a
    pair whose delta is the threshold plus one is split with
    [SizeDiffAboveThreshold]; likewise a content diff equal to the
    content threshold is accepted on the content criterion, and one byte
    more splits the pair, with [ContentDiffAboveThreshold] when the size
    criterion accepted it. *)
Theorem threshold_boundary size_threshold content_threshold a b :
  ((0 ≤ size_threshold)%Z →
     (size_delta a b = size_threshold →
        within size_threshold (size_delta a b) = true
        ∧ ∀ d, validate_pair diff_size size_threshold content_threshold a b
               ≠ SizeDiffAboveThreshold d)
     ∧ (size_delta a b = (size_threshold + 1)%Z →
        validate_pair diff_size size_threshold content_threshold a b
        = SizeDiffAboveThreshold (size_threshold + 1)))
  ∧ ((0 ≤ content_threshold)%Z →
     (content_delta diff_size a b = content_threshold →
        within content_threshold (content_delta diff_size a b) = true
        ∧ ∀ d, validate_pair diff_size size_threshold content_threshold a b
               ≠ ContentDiffAboveThreshold d)
     ∧ (content_delta diff_size a b = (content_threshold + 1)%Z →
        validate_pair diff_size size_threshold content_threshold a b
          ≠ Accepted
        ∧ (within size_threshold (size_delta a b) = true →
           validate_pair diff_size size_threshold content_threshold a b
           = ContentDiffAboveThreshold (content_threshold + 1))))
  ∧ (size_delta a b = size_threshold →
     content_delta diff_size a b = content_threshold →
     validate_pair diff_size size_threshold content_threshold a b = Accepted).
Proof.
  split_and!.
  - intros Hs. split.
    + intros Hd.
      assert (within size_threshold (size_delta a b) = true) as Hw.
      { apply within_spec. right. lia. }
      split; [done|]. intros d. unfold validate_pair. rewrite Hw. simpl.
      by destruct (within content_threshold _).
    + intros Hd. unfold validate_pair.
      assert (within size_threshold (size_delta a b) = false) as ->.
      { apply not_true_is_false. rewrite within_spec. lia. }
      simpl. by rewrite Hd.
  - intros Hc. split.
    + intros Hd.
      assert (within content_threshold (content_delta diff_size a b) = true)
        as Hw.
      { apply within_spec. right. lia. }
      split; [done|]. intros d. unfold validate_pair. rewrite Hw. simpl.
      by destruct (within size_threshold _).
    + intros Hd.
      assert (within content_threshold (content_delta diff_size a b) = false)
        as Hw.
      { apply not_true_is_false. rewrite within_spec. lia. }
      split.
      * rewrite validate_pair_Accepted, Hw. by intros [].
      * intros Hsz. unfold validate_pair. rewrite Hsz, Hw. simpl.
        by rewrite Hd.
  - intros Hs Hc. apply validate_pair_Accepted.
    rewrite !within_spec. split; right; lia.
Qed.

End Engine_properties.

(** ** The engine on concrete messages *)

Lemma too_few_headers_boundary_witness :
  fingerprint ascii_lower example_digest default_hash_headers
    MINIMAL_HEADERS_COUNT message_three_headers
  = TooFewHeaders 3
  ∧ fingerprint ascii_lower example_digest default_hash_headers
      MINIMAL_HEADERS_COUNT message_four_headers
    = Fingerprint
        (example_digest
           (canonical_headers ascii_lower default_hash_headers
              message_four_headers)).
Proof.
  split.
  - apply (proj1 (proj2 (too_few_headers_boundary
                           ascii_lower example_digest default_hash_headers
                           MINIMAL_HEADERS_COUNT message_three_headers))).
    by vm_compute.
  - apply (proj2 (proj2 (too_few_headers_boundary
                           ascii_lower example_digest default_hash_headers
                           MINIMAL_HEADERS_COUNT message_four_headers))).
    by vm_compute.
Defined.

Lemma threshold_boundary_witness :
  validate_pair example_diff_size 7 5
    message_three_headers message_four_headers = Accepted
  ∧ validate_pair example_diff_size 6 5
      message_three_headers message_four_headers
    = SizeDiffAboveThreshold 7
  ∧ validate_pair example_diff_size 7 4
      message_three_headers message_four_headers
    = ContentDiffAboveThreshold 5.
Proof.
  split_and!.
  - apply (proj2 (proj2 (threshold_boundary example_diff_size 7 5
                           message_three_headers message_four_headers)));
      by vm_compute.
  - apply (proj2 (proj1 (threshold_boundary example_diff_size 6 5
                           message_three_headers message_four_headers)
                    ltac:(lia))).
    by vm_compute.
  - apply (proj2 (proj2 (proj1 (proj2 (threshold_boundary example_diff_size 7 4
                           message_three_headers message_four_headers))
                    ltac:(lia))
             ltac:(by vm_compute))).
    by vm_compute.
Defined.

(** * setup.py *)

Lemma skip_literal_Some literal s r :
  skip_literal literal s = Some r ↔ s = literal ++ r.
Proof.
  revert s. induction literal as [|a literal IH]; intros s; simpl.
  { split; congruence. }
  destruct s as [|c s]; [done|].
  case_bool_decide as Hac.
  - subst c. rewrite IH. split; congruence.
  - split; [done|]. congruence.
Qed.

Lemma take_skip_while P s : take_while P s ++ skip_while P s = s.
Proof.
  induction s as [|c s IH]; [done|]. simpl.
  destruct (P c); [|done]. simpl. by rewrite IH.
Qed.

Lemma take_while_Forall P s : Forall (λ c, P c = true) (take_while P s).
Proof.
  induction s as [|c s IH]; simpl; [constructor|].
  destruct (P c) eqn:E; by constructor.
Qed.

Lemma skip_while_head P s c r : skip_while P s = c :: r → P c = false.
Proof.
  induction s as [|c' s IH]; [done|]. simpl.
  destruct (P c') eqn:E; [done|]. congruence.
Qed.

Lemma while_app P ws c r :
  Forall (λ c, P c = true) ws → P c = false →
  take_while P (ws ++ c :: r) = ws ∧ skip_while P (ws ++ c :: r) = c :: r.
Proof.
  intros Hws Hc. induction Hws as [|w ws Hw _ IH]; simpl.
  - by rewrite Hc.
  - rewrite Hw. destruct IH as [-> ->]. done.
Qed.

Lemma negb_quote_Forall v :
  Forall (λ c, negb (is_quote c) = true) v ↔
  Forall (λ c, is_quote c = false) v.
Proof.
  apply Forall_proper; [|done]. intros c. by rewrite negb_true_iff.
Qed.

Section Setup_properties.

Context (is_space : Z → bool).

(** Neither [=] nor a quote is a whitespace. *)
Hypothesis equals_no_space : is_space 61 = false.
Hypothesis quote_no_space : ∀ c, is_quote c = true → is_space c = false.

Lemma match_version_sound s v :
  match_version is_space s = Some v → version_line is_space s v.
Proof.
  unfold match_version. intros H.
  apply bind_Some in H as (s1 & E1 & H).
  apply bind_Some in H as (s2 & E2 & H).
  apply skip_literal_Some in E1, E2.
  destruct (skip_while is_space s2) as [|q s3] eqn:E3; [done|].
  destruct (is_quote q) eqn:Eq; [|done].
  destruct (skip_while (λ c, negb (is_quote c)) s3) as [|q' rest] eqn:E4;
    [done|].
  injection H as <-.
  exists (take_while is_space s1), (take_while is_space s2), q, q', rest.
  split_and!.
  - rewrite E1. f_equal.
    rewrite <-(take_skip_while is_space s1) at 1. f_equal.
    rewrite E2. simpl. f_equal.
    rewrite <-(take_skip_while is_space s2) at 1. f_equal.
    rewrite E3. simpl. f_equal.
    rewrite <-(take_skip_while (λ c, negb (is_quote c)) s3) at 1.
    by rewrite E4.
  - apply take_while_Forall.
  - apply take_while_Forall.
  - done.
  - apply skip_while_head in E4. by apply negb_false_iff in E4.
  - apply negb_quote_Forall, take_while_Forall.
Qed.

Lemma match_version_complete s v :
  version_line is_space s v → match_version is_space s = Some v.
Proof using equals_no_space quote_no_space.
  intros (ws1 & ws2 & q & q' & rest & -> & H1 & H2 & Hq & Hq' & Hv).
  unfold match_version.
  assert (skip_literal VERSION_KEYWORD
            (VERSION_KEYWORD ++ ws1 ++ [61%Z] ++ ws2 ++ [q] ++ v ++ [q'] ++ rest)
          = Some (ws1 ++ [61%Z] ++ ws2 ++ [q] ++ v ++ [q'] ++ rest)) as ->
    by by apply skip_literal_Some.
  simpl.
  destruct (while_app is_space ws1 61 (ws2 ++ q :: v ++ q' :: rest) H1
              equals_no_space) as [_ ->].
  simpl.
  destruct (while_app is_space ws2 q (v ++ q' :: rest) H2
              (quote_no_space q Hq)) as [_ ->].
  rewrite Hq.
  destruct (while_app (λ c, negb (is_quote c)) v q' rest) as [-> ->];
    [by apply negb_quote_Forall|by rewrite Hq'|done].
Qed.

(** X11. At one position the pattern captures one version at most: the
    text of a version line determines the version. *)
Theorem version_line_unambiguous s v v' :
  version_line is_space s v → version_line is_space s v' → v = v'.
Proof using equals_no_space quote_no_space.
  intros H H'. apply match_version_complete in H, H'. congruence.
Qed.

Lemma line_start_after_cons first c pre :
  line_start_after first (c :: pre) ↔
  line_start_after (bool_decide (c = 10%Z)) pre.
Proof.
  unfold line_start_after. split.
  - intros [[? _] | H]; [done|].
    destruct pre as [|c' pre]; [|by right].
    left. split; [done|]. simpl in H. apply bool_decide_eq_true. congruence.
  - intros [[-> H] | H]; right.
    + apply bool_decide_eq_true in H. by subst.
    + destruct pre; [done|]. done.
Qed.

Lemma match_version_nil : match_version is_space [] = None.
Proof. done. Qed.

(** The search returns the capture of the leftmost line start where the
    pattern matches. *)
Lemma search_Some first s v :
  search is_space first s = Some v ↔
  ∃ pre s',
    s = pre ++ s' ∧ line_start_after first pre
    ∧ match_version is_space s' = Some v
    ∧ ∀ pre1 s1, s = pre1 ++ s1 → length pre1 < length pre →
                 line_start_after first pre1 →
                 match_version is_space s1 = None.
Proof.
  revert first. induction s as [|c s IH]; intros first.
  - simpl. rewrite match_version_nil. destruct first; split; try done.
    + intros (pre & s' & Hs & _ & Hm & _).
      symmetry in Hs. apply app_eq_nil in Hs as [_ ->]. done.
    + intros (pre & s' & Hs & _ & Hm & _).
      symmetry in Hs. apply app_eq_nil in Hs as [_ ->]. done.
  - cbn [search].
    destruct (if first then match_version is_space (c :: s) else None)
      as [v0|] eqn:E0.
    + destruct first; [|done]. split.
      * intros [= ->]. exists [], (c :: s). split_and!; try done.
        -- by left.
        -- intros pre1 s1 _ Hlen. simpl in Hlen. lia.
      * intros (pre & s' & Hs & _ & Hm & Hmin).
        destruct pre as [|c' pre].
        -- simpl in Hs. subst s'. congruence.
        -- rewrite (Hmin [] (c :: s)) in E0; [done|done|simpl; lia|by left].
    + rewrite IH. split.
      * intros (pre & s' & -> & Hst & Hm & Hmin).
        exists (c :: pre), s'. split_and!; try done.
        -- by apply line_start_after_cons.
        -- intros pre1 s1 Hs Hlen Hst1. destruct pre1 as [|c1 pre1].
           ++ simpl in Hs. subst s1.
              destruct Hst1 as [[_ ->] | ?]; [done|done].
           ++ injection Hs as <- Hs. apply (Hmin pre1 s1 Hs).
              ** simpl in Hlen. lia.
              ** by apply line_start_after_cons in Hst1.
      * intros (pre & s' & Hs & Hst & Hm & Hmin).
        destruct pre as [|c' pre].
        -- simpl in Hs. subst s'.
           destruct Hst as [[_ ->] | ?]; [congruence|done].
        -- injection Hs as <- ->. exists pre, s'. split_and!; try done.
           ++ by apply line_start_after_cons in Hst.
           ++ intros pre1 s1 Hs1 Hlen Hst1. apply (Hmin (c :: pre1) s1).
              ** simpl. by rewrite Hs1.
              ** simpl. lia.
              ** by apply line_start_after_cons.
Qed.

Lemma search_None first s :
  search is_space first s = None ↔
  ∀ pre s', s = pre ++ s' → line_start_after first pre →
            match_version is_space s' = None.
Proof.
  revert first. induction s as [|c s IH]; intros first.
  - simpl. rewrite match_version_nil. split; [|by destruct first].
    intros _ pre s' Hs _. symmetry in Hs. by apply app_eq_nil in Hs as [_ ->].
  - cbn [search].
    destruct (if first then match_version is_space (c :: s) else None)
      as [v0|] eqn:E0.
    + destruct first; [|done]. split; [done|]. intros H.
      rewrite (H [] (c :: s)) in E0; [done|done|by left].
    + rewrite IH. split.
      * intros H pre s' Hs Hst. destruct pre as [|c' pre].
        -- simpl in Hs. subst s'. destruct Hst as [[_ ->] | ?]; done.
        -- injection Hs as <- ->. apply (H pre s' eq_refl).
           by apply line_start_after_cons in Hst.
      * intros H pre s' -> Hst. apply (H (c :: pre) s' eq_refl).
        by apply line_start_after_cons.
Qed.

Context (read_file : list pystr → option pystr).

Lemma at_line_start_version_line init_file v :
  (∃ pre s,
     init_file = pre ++ s ∧ at_line_start pre
     ∧ version_line is_space s v
     ∧ ∀ pre1 s1 v1, init_file = pre1 ++ s1 → length pre1 < length pre →
                     at_line_start pre1 → ¬ version_line is_space s1 v1) ↔
  search is_space true init_file = Some v.
Proof using equals_no_space quote_no_space.
  rewrite search_Some. split.
  - intros (pre & s & Hs & Hst & Hv & Hmin). exists pre, s.
    split_and!; [done|done|by apply match_version_complete|].
    intros pre1 s1 Hs1 Hlen Hst1.
    destruct (match_version is_space s1) as [v1|] eqn:E; [|done].
    destruct (Hmin pre1 s1 v1 Hs1 Hlen Hst1). by apply match_version_sound.
  - intros (pre & s & Hs & Hst & Hv & Hmin). exists pre, s.
    split_and!; [done|done|by apply match_version_sound|].
    intros pre1 s1 v1 Hs1 Hlen Hst1 Hv1.
    apply match_version_complete in Hv1.
    rewrite (Hmin pre1 s1 Hs1 Hlen Hst1) in Hv1. done.
Qed.

(** X12. [get_version] returns the version of the first line (from the
    top) that is a version line: the keyword at the start of the line,
    whitespace, [=], whitespace, then the version between two quotes. *)
Theorem get_version_first_version_line init_file v :
  read_file [MODULE_NAME; str_of "__init__.py"] = Some init_file →
  get_version is_space read_file = Version v ↔
  ∃ pre s,
    init_file = pre ++ s ∧ at_line_start pre
    ∧ version_line is_space s v
    ∧ ∀ pre1 s1 v1, init_file = pre1 ++ s1 → length pre1 < length pre →
                    at_line_start pre1 → ¬ version_line is_space s1 v1.
Proof using equals_no_space quote_no_space.
  intros Hread. rewrite at_line_start_version_line.
  unfold get_version. rewrite Hread.
  destruct (search is_space true init_file); split; congruence.
Qed.

(** X13. [get_version] raises the RuntimeError exactly when no line of
    the file is a version line. *)
Theorem get_version_no_version_line init_file :
  read_file [MODULE_NAME; str_of "__init__.py"] = Some init_file →
  get_version is_space read_file = RuntimeError_no_version ↔
  ∀ pre s v, init_file = pre ++ s → at_line_start pre →
             ¬ version_line is_space s v.
Proof using equals_no_space quote_no_space.
  intros Hread. unfold get_version. rewrite Hread.
  destruct (search is_space true init_file) as [v0|] eqn:E.
  - split; [done|]. intros H.
    apply search_Some in E as (pre & s & Hs & Hst & Hm & _).
    destruct (H pre s v0 Hs Hst). by apply match_version_sound.
  - split; [|done]. intros _ pre s v Hs Hst Hv.
    apply match_version_complete in Hv.
    rewrite search_None in E. rewrite (E pre s Hs Hst) in Hv. done.
Qed.

(** X14. Reading back a version that was written: when the first line
    that starts with the keyword holds a version without quotes between
    two quotes (the two need not be the same), [get_version] returns that
    version. *)
Theorem get_version_round_trip init_file pre ws1 ws2 q q' v rest :
  read_file [MODULE_NAME; str_of "__init__.py"] = Some init_file →
  init_file
  = pre ++ VERSION_KEYWORD ++ ws1 ++ [61%Z] ++ ws2 ++ [q] ++ v ++ [q'] ++ rest →
  at_line_start pre →
  (∀ pre1 s1, init_file = pre1 ++ s1 → length pre1 < length pre →
              at_line_start pre1 → skip_literal VERSION_KEYWORD s1 = None) →
  Forall (λ c, is_space c = true) ws1 →
  Forall (λ c, is_space c = true) ws2 →
  is_quote q = true → is_quote q' = true →
  Forall (λ c, is_quote c = false) v →
  get_version is_space read_file = Version v.
Proof using equals_no_space quote_no_space.
  intros Hread Hfile Hst Hmin H1 H2 Hq Hq' Hv.
  unfold get_version. rewrite Hread.
  rewrite (proj1 (at_line_start_version_line init_file v)); [done|].
  eexists pre, _. split_and!; [exact Hfile|done| |].
  - exists ws1, ws2, q, q', rest. done.
  - intros pre1 s1 v1 Hs1 Hlen Hst1 (w1 & w2 & a & a' & r & -> & _).
    specialize (Hmin pre1 _ Hs1 Hlen Hst1).
    by rewrite (proj2 (skip_literal_Some _ _ _) eq_refl) in Hmin.
Qed.

End Setup_properties.

Lemma ascii_quote_no_space c : is_quote c = true → ascii_space c = false.
Proof.
  unfold is_quote, ascii_space. intros H%bool_decide_eq_true.
  apply bool_decide_eq_false. lia.
Defined.

Lemma version_line_unambiguous_witness :
  ∃ v, version_line ascii_space (str_of "__version__='1'") v
       ∧ ∀ v', version_line ascii_space (str_of "__version__='1'") v' →
               v = v'.
Proof.
  assert (version_line ascii_space (str_of "__version__='1'") (str_of "1"))
    as H.
  { exists [], [], 39%Z, 39%Z, []. by repeat constructor. }
  exists (str_of "1"). split; [exact H|]. intros v'.
  apply (version_line_unambiguous ascii_space eq_refl ascii_quote_no_space
           (str_of "__version__='1'") (str_of "1") v' H).
Defined.

Lemma get_version_first_version_line_witness :
  ∃ pre s, example_init_file = pre ++ s ∧ at_line_start pre
           ∧ version_line ascii_space s (str_of "6.2.1").
Proof.
  destruct (proj1 (get_version_first_version_line
                     ascii_space eq_refl ascii_quote_no_space
                     (λ _, Some example_init_file)
                     example_init_file (str_of "6.2.1") eq_refl))
    as (pre & s & H1 & H2 & H3 & _).
  - by vm_compute.
  - exists pre, s. exact (conj H1 (conj H2 H3)).
Defined.

Lemma get_version_no_version_line_witness :
  get_version ascii_space (λ _, Some (str_of "version = '6.2.1'"))
  = RuntimeError_no_version
  ∧ ∀ pre s v, str_of "version = '6.2.1'" = pre ++ s → at_line_start pre →
               ¬ version_line ascii_space s v.
Proof.
  split; [by vm_compute|].
  apply (proj1 (get_version_no_version_line
                  ascii_space eq_refl ascii_quote_no_space
                  (λ _, Some (str_of "version = '6.2.1'"))
                  (str_of "version = '6.2.1'") eq_refl)).
  by vm_compute.
Defined.

Lemma get_version_round_trip_witness :
  get_version ascii_space
    (λ _, Some (str_of "__version__ =  '6.2.1" ++ [34; 10]%Z))
  = Version (str_of "6.2.1").
Proof.
  apply (get_version_round_trip ascii_space eq_refl ascii_quote_no_space
           (λ _, Some (str_of "__version__ =  '6.2.1" ++ [34; 10]%Z))
           (str_of "__version__ =  '6.2.1" ++ [34; 10]%Z)
           [] [32%Z] [32%Z; 32%Z] 39%Z 34%Z (str_of "6.2.1") [10%Z]).
  - reflexivity.
  - reflexivity.
  - by left.
  - intros pre1 s1 _ Hlen. simpl in Hlen. lia.
  - by repeat constructor.
  - by repeat constructor.
  - reflexivity.
  - reflexivity.
  - by repeat constructor.
Defined.
